(** * Message Tracking View (tracked-messages.tsx)

    A shallow embedding of the [TrackedMessages] React component: the
    per-row label resolution, the status icon table, the expansion-state
    toggle, the connection indicator, the refresh poller
    [fetchRealMessages] and the [useEffect] that schedules it.

    JavaScript values are modelled dynamically (the payload [message.data]
    and every parsed JSON body have type [any] in the source), exceptions
    and the console by a small state-and-exception monad, the expansion
    record by a finite map, and the browser's interval timers by a table
    of timer ids with their next firing time in milliseconds. *)

From Stdlib Require Import ZArith NArith Lia Ascii.
From stdpp Require Import base option gmap strings list fin_maps.

Set Warnings "-register-all".
Open Scope string_scope.
Open Scope list_scope.

(** ** JavaScript values *)

Module Js.

(** JSON-shaped values plus [undefined]. Numbers are the integral ones;
    none of the code below does arithmetic beyond [length > 0]. *)
Inductive JsValue : Type :=
| JUndefined
| JNull
| JBool (b : bool)
| JNum (z : Z)
| JStr (s : string)
| JArr (elems : list JsValue)
| JObj (fields : list (string * JsValue)).

Inductive JsError : Type :=
| TypeError
| SyntaxError
| SecurityError
| NetworkError
| Thrown (v : JsValue).

(** Result of evaluating an expression: a value or a thrown exception. *)
Inductive Completion (A : Type) : Type :=
| Normal (a : A)
| Throw (e : JsError).
Arguments Normal {A} a.
Arguments Throw {A} e.

(** [ToBoolean]: what [if (v)] and [v && ...] test. *)
Definition truthy (v : JsValue) : bool :=
  match v with
  | JUndefined | JNull => false
  | JBool b => b
  | JNum z => negb (z =? 0)%Z
  | JStr s => negb (String.eqb s "")
  | JArr _ | JObj _ => true
  end.

Fixpoint assoc (k : string) (fs : list (string * JsValue)) : option JsValue :=
  match fs with
  | [] => None
  | (k', v) :: rest => if String.eqb k k' then Some v else assoc k rest
  end.

(** [v.k] for the property names the component reads ([messageType],
    [messages], [length], [id]): a [TypeError] on [undefined] and [null],
    the own field of an object, [length] of arrays and strings, and
    [undefined] everywhere else. *)
Definition js_get (v : JsValue) (k : string) : Completion JsValue :=
  match v with
  | JUndefined | JNull => Throw TypeError
  | JObj fs => Normal (default JUndefined (assoc k fs))
  | JArr l =>
      if String.eqb k "length" then Normal (JNum (Z.of_nat (length l)))
      else Normal JUndefined
  | JStr s =>
      if String.eqb k "length" then Normal (JNum (Z.of_nat (String.length s)))
      else Normal JUndefined
  | JBool _ | JNum _ => Normal JUndefined
  end.

(** [v?.k]: optional chaining short-circuits to [undefined]. *)
Definition js_get_opt (v : JsValue) (k : string) : Completion JsValue :=
  match v with
  | JUndefined | JNull => Normal JUndefined
  | _ => js_get v k
  end.

(** *** State and exceptions *)

Definition M (S A : Type) : Type := S -> Completion A * S.

Definition ret {S A} (a : A) : M S A := fun s => (Normal a, s).

Definition bind {S A B} (m : M S A) (k : A -> M S B) : M S B :=
  fun s =>
    match m s with
    | (Normal a, s') => k a s'
    | (Throw e, s') => (Throw e, s')
    end.

Definition throw {S A} (e : JsError) : M S A := fun s => (Throw e, s).

(** Lift a pure, possibly throwing, evaluation. *)
Definition lift {S A} (c : Completion A) : M S A := fun s => (c, s).

Definition gets {S A} (f : S -> A) : M S A := fun s => (Normal (f s), s).

Definition modify {S} (f : S -> S) : M S unit := fun s => (Normal tt, f s).

(** [try { body } catch (e) { handler e }]: state changes made by the
    body before it threw are kept. *)
Definition try_catch {S A} (body : M S A) (handler : JsError -> M S A) : M S A :=
  fun s =>
    match body s with
    | (Normal a, s') => (Normal a, s')
    | (Throw e, s') => handler e s'
    end.

(** Run a statement for each element of a list, stopping at the first
    exception. *)
Fixpoint for_each {S A} (f : A -> M S unit) (l : list A) : M S unit :=
  match l with
  | [] => ret tt
  | x :: rest => bind (f x) (fun _ => for_each f rest)
  end.

(** [v.forEach(f)]: only arrays have the method; on anything else the
    call of [undefined] (or of a non-function field) is a [TypeError]. *)
Definition js_forEach {S} (v : JsValue) (f : JsValue -> M S unit) : M S unit :=
  match v with
  | JArr l => for_each f l
  | _ => throw TypeError
  end.

End Js.
Export Js.

Notation "'do' x <- c ; k" := (bind c (fun x => k))
  (at level 10, x name, c at level 100, k at level 200).

(** [console.error(tag, e)] appends an entry to the console. *)
Definition LogEntry : Type := string * JsError.

(** ** Data model *)

(** One record of the WebSocket service's [messages] array. [data] is
    [JUndefined] when the optional payload is absent. *)
Record TrackedMessage : Type := {
  messageId : string;
  status : string;
  data : JsValue;
  timestamp : JsValue
}.

(** The collaborators the row label reads: the LayerZero hook's
    [getMessageTypeName], whether a [window] exists, [localStorage.getItem]
    ([None] is JavaScript's [null]) and [JSON.parse]. *)
Record LabelEnv : Type := {
  getMessageTypeName : JsValue -> Completion JsValue;
  window_defined : bool;
  localStorage_getItem : string -> Completion (option string);
  JSON_parse : string -> Completion JsValue
}.

(** ** Per-row label resolution (lines 141-170) *)

(** The immediately-invoked function's frame: its local [messageType] and
    the console it logs to. *)
Record Frame : Type := {
  messageType : JsValue;
  console : list LogEntry
}.

Definition default_label : JsValue := JStr "Cross-Chain Query".

Definition set_messageType (v : JsValue) : M Frame unit :=
  modify (fun f => {| messageType := v; console := console f |}).

Definition console_error (tag : string) (e : JsError) : M Frame unit :=
  modify (fun f => {| messageType := messageType f;
                      console := console f ++ [(tag, e)] |}).

(** Lines 155-158: the body of the inner [try]. *)
Definition parse_metadata (env : LabelEnv) (metadataStr : string) : M Frame unit :=
  do metadata <- lift (JSON_parse env metadataStr);
  do t <- lift (js_get metadata "messageType");
  if truthy t then
    do t' <- lift (js_get metadata "messageType");
    set_messageType t'
  else ret tt.

(** Lines 151-163: the [else] branch that consults [localStorage]. *)
Definition read_cached_label (env : LabelEnv) (id : string) : M Frame unit :=
  if window_defined env then
    do metadataStr <- lift (localStorage_getItem env ("message_" +:+ id));
    match metadataStr with
    | Some s =>
        if negb (String.eqb s "") then
          try_catch (parse_metadata env s)
                    (fun e => console_error "Error parsing message metadata:" e)
        else ret tt
    | None => ret tt
    end
  else ret tt.

(** Lines 147-164: the body of the outer [try]. *)
Definition label_try_body (env : LabelEnv) (message : TrackedMessage) : M Frame unit :=
  do mt <- lift (js_get_opt (data message) "messageType");
  if truthy mt then
    do arg <- lift (js_get (data message) "messageType");
    do name <- lift (getMessageTypeName env arg);
    set_messageType name
  else read_cached_label env (messageId message).

(** Lines 141-170: the whole function expression, run on the current
    console; it yields the label and the console afterwards. *)
Definition message_type_label (env : LabelEnv) (message : TrackedMessage)
  : M (list LogEntry) JsValue :=
  fun log =>
    let frame0 := {| messageType := default_label; console := log |} in
    let '(r, frame1) :=
      bind (try_catch (label_try_body env message)
                      (fun error => console_error "Error getting message type:" error))
           (fun _ => gets messageType) frame0 in
    (r, console frame1).

(** ** Status icon (lines 86-100) *)

Inductive Glyph : Type :=
| CheckCircle | XCircle | Clock | ArrowRightLeft
| ChevronDown | ChevronUp | Inbox | Wifi | WifiOff.

Record Icon : Type := {
  glyph : Glyph;
  className : string
}.

Definition getStatusIcon (st : string) : Icon :=
  if String.eqb st "COMPLETED" then
    {| glyph := CheckCircle; className := "h-4 w-4 text-green-400" |}
  else if String.eqb st "FAILED" then
    {| glyph := XCircle; className := "h-4 w-4 text-red-400" |}
  else if String.eqb st "INFLIGHT" then
    {| glyph := ArrowRightLeft; className := "h-4 w-4 text-blue-400" |}
  else if String.eqb st "DELIVERED" then
    {| glyph := CheckCircle; className := "h-4 w-4 text-purple-400" |}
  else
    {| glyph := Clock; className := "h-4 w-4 text-yellow-400" |}.

(** ** Expansion state (lines 34, 103-108, 132) *)

(** The record is a plain object: besides its own entries it has the
    properties every object inherits from [Object.prototype]. Each of
    them reads as a function or, for [__proto__], as the prototype object
    itself, so each is truthy. *)
Definition object_prototype_members : list string :=
  ["constructor"; "hasOwnProperty"; "isPrototypeOf"; "propertyIsEnumerable";
   "toLocaleString"; "toString"; "valueOf"; "__proto__";
   "__defineGetter__"; "__defineSetter__";
   "__lookupGetter__"; "__lookupSetter__"].

Definition inherited (id : string) : bool :=
  existsb (String.eqb id) object_prototype_members.

(** [expanded[messageId]] read as a condition: an own entry reads as its
    boolean; a missing key is [undefined], hence false, unless the key
    names an inherited member, which reads truthy. *)
Definition isExpanded (expanded : gmap string bool) (id : string) : bool :=
  match expanded !! id with
  | Some b => b
  | None => inherited id
  end.

(** [{...prev, [messageId]: !prev[messageId]}]: the spread copies the own
    entries and the computed key writes an own entry. *)
Definition toggleExpanded (id : string) (prev : gmap string bool) : gmap string bool :=
  <[id := negb (isExpanded prev id)]> prev.

(** *** Click dispatch (lines 137, 188-191)

    A click bubbles from its target to the ancestors until a handler calls
    [stopPropagation]. *)
Inductive Element : Type :=
| HeaderDiv (id : string)
| ToggleButton (id : string).

Record ClickEvent : Type := {
  propagationStopped : bool
}.

(** The [onClick] handler attached to an element. *)
Definition onClick (el : Element) (e : ClickEvent) (st : gmap string bool)
  : ClickEvent * gmap string bool :=
  match el with
  | HeaderDiv id => (e, toggleExpanded id st)
  | ToggleButton id => ({| propagationStopped := true |}, toggleExpanded id st)
  end.

(** The elements with a click handler from the target outwards: the button
    sits inside the header. *)
Definition propagation_path (target : Element) : list Element :=
  match target with
  | HeaderDiv id => [HeaderDiv id]
  | ToggleButton id => [ToggleButton id; HeaderDiv id]
  end.

Fixpoint bubble (path : list Element) (e : ClickEvent) (st : gmap string bool)
  : gmap string bool :=
  match path with
  | [] => st
  | el :: rest =>
      let '(e', st') := onClick el e st in
      if propagationStopped e' then st' else bubble rest e' st'
  end.

Definition click (target : Element) (st : gmap string bool) : gmap string bool :=
  bubble (propagation_path target) {| propagationStopped := false |} st.

(** ** The WebSocket hook and the rendered view *)

(** What [useWebSocket()] hands to the component, as functions of the
    service's state [W]: the connection state, the message array, the
    registration call (which may change the service's state, and like any
    call may throw) and the identity of the [trackMessage] function object,
    which React compares between renders. [coerced_gt_zero] is JavaScript's
    [v > 0] on the operands that need a string or object coercion. *)
Record WsHook (W CS : Type) : Type := {
  connectionState : W -> CS;
  OPEN : CS;
  messages : W -> list TrackedMessage;
  trackMessage : JsValue -> W -> Completion unit * W;
  trackMessage_ref : W -> nat;
  coerced_gt_zero : JsValue -> bool
}.
Arguments connectionState {W CS} _ _.
Arguments OPEN {W CS} _.
Arguments messages {W CS} _ _.
Arguments trackMessage {W CS} _ _ _.
Arguments trackMessage_ref {W CS} _ _.
Arguments coerced_gt_zero {W CS} _ _.

Inductive Badge : Type :=
| LiveUpdates   (* Wifi glyph, "Live Updates" *)
| PollingBadge. (* WifiOff glyph, "Polling" *)

(** One rendered row: its React key, status icon, label, the chevron of
    the toggle button and, when mounted, the [messageId] prop of the
    [MessageStatus] detail sub-view. *)
Record Row : Type := {
  row_key : string;
  row_icon : Icon;
  row_label : JsValue;
  row_chevron : Glyph;
  row_detail : option string
}.

Inductive View : Type :=
| EmptyState                                              (* "No Active Queries" *)
| ActiveQueries (count : nat) (badge : Badge) (rows : list Row).

Fixpoint map_m {S A B} (f : A -> M S B) (l : list A) : M S (list B) :=
  match l with
  | [] => ret []
  | x :: rest =>
      do y <- f x;
      do ys <- map_m f rest;
      ret (y :: ys)
  end.

(** Lines 130-204: the callback of [messages.map]. *)
Definition render_row (env : LabelEnv) (expanded : gmap string bool)
    (message : TrackedMessage) : M (list LogEntry) Row :=
  let id := messageId message in
  let isExp := isExpanded expanded id in
  do label <- message_type_label env message;
  ret {| row_key := id;
         row_icon := getStatusIcon (status message);
         row_label := label;
         row_chevron := if isExp then ChevronUp else ChevronDown;
         row_detail := if isExp then Some id else None |}.

Section Render.
Context {W CS : Type} `{EqDecision CS}.

(** Lines 116-126: [connectionState === ConnectionState.OPEN ? ... : ...] *)
Definition connection_badge (hook : WsHook W CS) (cs : CS) : Badge :=
  if decide (cs = OPEN hook) then LiveUpdates else PollingBadge.

(** Lines 37 and 73-208: the component's output for the hook state [w]
    and the expansion record. *)
Definition render (env : LabelEnv) (hook : WsHook W CS) (w : W)
    (expanded : gmap string bool) : M (list LogEntry) View :=
  let messageIds := map messageId (messages hook w) in
  if (length messageIds =? 0)%nat then ret EmptyState
  else
    do rows <- map_m (render_row env expanded) (messages hook w);
    ret (ActiveQueries (length messageIds)
                       (connection_badge hook (connectionState hook w))
                       rows).
End Render.

(** ** The refresh poller and its scheduling (lines 40-70) *)

Definition period : N := 15000.

(** The settled result of [fetch(...)] followed by [response.json()]. *)
Record Response : Type := {
  ok : bool;
  json : Completion JsValue
}.

Inductive FetchOutcome : Type :=
| NetworkFailure (e : JsError)
| Respond (r : Response).

(** The component instance together with the part of the browser it
    touches. [requests] holds the time of every [fetch] call, [pending] the
    indices of the requests whose promise has not settled, [timers] the
    live [setInterval] timers with their next firing time, and [effect] the
    interval id held by the current cleanup closure with the dependency
    values of the render that ran the effect ([None] while unmounted). *)
Record Sys (W : Type) : Type := {
  clock : N;
  console_log : list LogEntry;
  requests : list N;
  pending : list nat;
  trackCalls : list JsValue;
  client : W;
  timers : list (nat * N);
  next_timer : nat;
  effect : option (nat * (nat * nat))
}.
Arguments clock {W} _.
Arguments console_log {W} _.
Arguments requests {W} _.
Arguments pending {W} _.
Arguments trackCalls {W} _.
Arguments client {W} _.
Arguments timers {W} _.
Arguments next_timer {W} _.
Arguments effect {W} _.

Section Poller.
Context {W CS : Type}.
Variable hook : WsHook W CS.

Definition with_clock (t : N) (s : Sys W) : Sys W :=
  {| clock := t; console_log := console_log s; requests := requests s;
     pending := pending s; trackCalls := trackCalls s; client := client s;
     timers := timers s; next_timer := next_timer s; effect := effect s |}.

Definition with_client (w : W) (s : Sys W) : Sys W :=
  {| clock := clock s; console_log := console_log s; requests := requests s;
     pending := pending s; trackCalls := trackCalls s; client := w;
     timers := timers s; next_timer := next_timer s; effect := effect s |}.

Definition with_pending (p : list nat) (s : Sys W) : Sys W :=
  {| clock := clock s; console_log := console_log s; requests := requests s;
     pending := p; trackCalls := trackCalls s; client := client s;
     timers := timers s; next_timer := next_timer s; effect := effect s |}.

Definition with_timers (ts : list (nat * N)) (s : Sys W) : Sys W :=
  {| clock := clock s; console_log := console_log s; requests := requests s;
     pending := pending s; trackCalls := trackCalls s; client := client s;
     timers := ts; next_timer := next_timer s; effect := effect s |}.

Definition with_effect (e : option (nat * (nat * nat))) (s : Sys W) : Sys W :=
  {| clock := clock s; console_log := console_log s; requests := requests s;
     pending := pending s; trackCalls := trackCalls s; client := client s;
     timers := timers s; next_timer := next_timer s; effect := e |}.

(** [console.error(tag, e)] *)
Definition sys_console_error (tag : string) (e : JsError) : M (Sys W) unit :=
  modify (fun s =>
    {| clock := clock s; console_log := console_log s ++ [(tag, e)];
       requests := requests s; pending := pending s;
       trackCalls := trackCalls s; client := client s;
       timers := timers s; next_timer := next_timer s; effect := effect s |}).

(** [trackMessage(id)]: the call is recorded and the service updated. *)
Definition call_trackMessage (id : JsValue) : M (Sys W) unit :=
  fun s =>
    let '(r, w') := trackMessage hook id (client s) in
    (r, {| clock := clock s; console_log := console_log s;
           requests := requests s; pending := pending s;
           trackCalls := trackCalls s ++ [id]; client := w';
           timers := timers s; next_timer := next_timer s;
           effect := effect s |}).

(** [v > 0] *)
Definition js_gt_zero (v : JsValue) : bool :=
  match v with
  | JNum z => (0 <? z)%Z
  | JBool b => b
  | JUndefined | JNull => false
  | JStr _ | JArr _ | JObj _ => coerced_gt_zero hook v
  end.

(** Line 44 up to the [await]: calling [fetchRealMessages()] issues the
    request and returns a promise; nothing can throw here. *)
Definition fetchRealMessages_start (s : Sys W) : Sys W :=
  {| clock := clock s; console_log := console_log s;
     requests := requests s ++ [clock s];
     pending := pending s ++ [length (requests s)];
     trackCalls := trackCalls s; client := client s;
     timers := timers s; next_timer := next_timer s; effect := effect s |}.

(** Lines 44-53 after the [await]: the body of the [try] once the fetch
    promise has settled with outcome [o]. *)
Definition fetch_try_body (o : FetchOutcome) : M (Sys W) unit :=
  do response <- lift (match o with
                       | NetworkFailure e => Throw e
                       | Respond r => Normal r
                       end);
  if ok response then
    do data <- lift (json response);
    do msgs <- lift (js_get data "messages");
    if truthy msgs then
      do msgs1 <- lift (js_get data "messages");
      do len <- lift (js_get msgs1 "length");
      if js_gt_zero len then
        do msgs2 <- lift (js_get data "messages");
        js_forEach msgs2 (fun msg =>
          do id <- lift (js_get msg "id");
          call_trackMessage id)
      else ret tt
    else ret tt
  else ret tt.

(** Lines 42-56: the [try]/[catch] around it. *)
Definition fetchRealMessages_resume (o : FetchOutcome) : M (Sys W) unit :=
  try_catch (fetch_try_body o)
            (fun error => sys_console_error "Error fetching real messages:" error).

(** The registration loop of line 51 over the ids of a well-formed body. *)
Definition track_each (ids : list string) : M (Sys W) unit :=
  for_each (fun msg => do id <- lift (js_get msg "id"); call_trackMessage id)
           (map (fun id => JObj [("id", JStr id)]) ids).

(** The service's state after registering [ids] in order. *)
Definition register_all (ids : list string) (w : W) : W :=
  foldl (fun w id => (trackMessage hook (JStr id) w).2) w ids.

(** *** Interval timers *)

(** [setInterval(cb, 15000)]: a fresh id, first firing one period from now. *)
Definition setInterval (s : Sys W) : nat * Sys W :=
  (next_timer s,
   {| clock := clock s; console_log := console_log s; requests := requests s;
      pending := pending s; trackCalls := trackCalls s; client := client s;
      timers := timers s ++ [(next_timer s, (clock s + period)%N)];
      next_timer := S (next_timer s); effect := effect s |}).

(** [clearInterval(id)] *)
Definition clearInterval (id : nat) (s : Sys W) : Sys W :=
  with_timers (filter (fun p => p.1 ≠ id) (timers s)) s.

(** The timer that fires first, the earlier entry winning a tie. *)
Fixpoint earliest (ts : list (nat * N)) : option (nat * N) :=
  match ts with
  | [] => None
  | (id, t) :: rest =>
      match earliest rest with
      | Some (id', t') => if (t' <? t)%N then Some (id', t') else Some (id, t)
      | None => Some (id, t)
      end
  end.

Definition reschedule (id : nat) (t : N) (ts : list (nat * N)) : list (nat * N) :=
  map (fun p => if decide (p.1 = id) then (id, t) else p) ts.

(** Fire, in time order, every timer due at or before [limit]; a timer
    that fired is due again one period later. Each firing runs the
    interval callback of lines 65-67. *)
Fixpoint run_timers (fuel : nat) (limit : N) (s : Sys W) : Sys W :=
  match fuel with
  | O => s
  | S fuel' =>
      match earliest (timers s) with
      | Some (id, t) =>
          if (t <=? limit)%N then
            run_timers fuel' limit
              (fetchRealMessages_start
                 (with_timers (reschedule id (t + period)%N (timers s))
                              (with_clock t s)))
          else s
      | None => s
      end
  end.

(** Let [dt] milliseconds pass. *)
Definition elapse (dt : N) (s : Sys W) : Sys W :=
  let limit := (clock s + dt)%N in
  let fuel := (S (N.to_nat (dt / period)) * length (timers s))%nat in
  with_clock limit (run_timers fuel limit s).

(** *** The effect of lines 40-70 *)

(** The dependency array [[messages.length, trackMessage]]. *)
Definition deps_of (s : Sys W) : nat * nat :=
  (length (messages hook (client s)), trackMessage_ref hook (client s)).

(** Lines 59-69: the effect callback; the returned cleanup closure is
    represented by the interval id it holds. *)
Definition run_effect (s : Sys W) : Sys W :=
  let d := deps_of s in
  let s1 := if (length (messages hook (client s)) =? 0)%nat
            then fetchRealMessages_start s else s in
  let '(intervalId, s2) := setInterval s1 in
  with_effect (Some (intervalId, d)) s2.

(** A render of the mounted component: React runs the previous cleanup
    and the effect again exactly when a dependency changed. *)
Definition rerender (s : Sys W) : Sys W :=
  match effect s with
  | Some (intervalId, d) =>
      if decide (d = deps_of s) then s
      else run_effect (clearInterval intervalId s)
  | None => s
  end.

Inductive Event : Type :=
| Mount
| Render
| Unmount
| Elapse (dt : N)
| Settle (n : nat) (o : FetchOutcome)
| Push (w : W).

(** One step of the component's life. A settled request resumes the
    continuation of [fetchRealMessages] (its promise is not observed by
    anyone, so its completion is dropped); a change of the service's
    state, by the continuation or by a pushed update, is followed by a
    re-render. *)
Definition step (ev : Event) (s : Sys W) : Sys W :=
  match ev with
  | Mount =>
      match effect s with
      | None => run_effect s
      | Some _ => s
      end
  | Render => rerender s
  | Unmount =>
      match effect s with
      | Some (intervalId, _) => with_effect None (clearInterval intervalId s)
      | None => s
      end
  | Elapse dt => elapse dt s
  | Settle n o =>
      if decide (n ∈ pending s) then
        rerender (fetchRealMessages_resume o
                    (with_pending (filter (fun m => m ≠ n) (pending s)) s)).2
      else s
  | Push w => rerender (with_client w s)
  end.

Definition run (evs : list Event) (s : Sys W) : Sys W :=
  foldl (fun s ev => step ev s) s evs.

(** The component before it is mounted, at time [t0] with service state [w]. *)
Definition initial (t0 : N) (w : W) : Sys W :=
  {| clock := t0; console_log := []; requests := []; pending := [];
     trackCalls := []; client := w; timers := []; next_timer := 0;
     effect := None |}.

(** *** Invariants of the schedule *)

(** [s'] differs from [s] at most in the console, the recorded
    [trackMessage] calls and the service's state. *)
Definition same_browser (s s' : Sys W) : Prop :=
  clock s' = clock s /\ requests s' = requests s /\ pending s' = pending s
  /\ timers s' = timers s /\ next_timer s' = next_timer s
  /\ effect s' = effect s.

Definition keeps {A} (m : M (Sys W) A) : Prop :=
  forall s, same_browser s (m s).2.

(** The times of [n] successive firings of a timer first due at [t]. *)
Fixpoint fire_times (t : N) (n : nat) : list N :=
  match n with
  | O => []
  | S n' => t :: fire_times (t + period)%N n'
  end.

(** Mounted: the cleanup closure holds interval [id], which is the only
    live timer and fires next at [t], within one period from now. *)
Definition mounted (s : Sys W) (id : nat) (t : N) : Prop :=
  (exists d, effect s = Some (id, d))
  /\ timers s = [(id, t)]
  /\ (clock s < t <= clock s + period)%N.

(** Armed: mounted, and the effect ran for the current dependency values. *)
Definition armed (s : Sys W) (id : nat) (t : N) : Prop :=
  effect s = Some (id, deps_of s)
  /\ timers s = [(id, t)]
  /\ (clock s < t <= clock s + period)%N.

(** Idle: not mounted, and no timer is left. *)
Definition idle (s : Sys W) : Prop :=
  effect s = None /\ timers s = [].

Definition well_formed (s : Sys W) : Prop :=
  idle s \/ exists id t, armed s id t.

End Poller.

(** ** A concrete environment

    The collaborators live outside the component's file. The instances
    below are used to run the definitions above on explicit inputs. *)

Module Demo.

Inductive ConnState : Type := CsConnecting | CsOpen | CsClosed.

#[global] Instance ConnState_eq_dec : EqDecision ConnState.
Proof. solve_decision. Defined.

Definition mk_message (id : string) (st : string) (d : JsValue) : TrackedMessage :=
  {| messageId := id; status := st; data := d; timestamp := JUndefined |}.

Definition is_tracked (id : string) (w : list TrackedMessage) : bool :=
  existsb (fun m => String.eqb (messageId m) id) w.

(** Modelled from the spec: the Notification Client's [trackMessage],
    whose source (services/websocket-service) is not part of the
    component's file. Section 4.2 calls it an idempotent registration:
    an id that is already tracked is left alone, a new one gets a record
    in its initial status. *)
Definition register (id : JsValue) (w : list TrackedMessage)
  : Completion unit * list TrackedMessage :=
  match id with
  | JStr s =>
      if is_tracked s w then (Normal tt, w)
      else (Normal tt, w ++ [mk_message s "CREATED" JUndefined])
  | _ => (Normal tt, w)
  end.

(** The hook over a service whose state is its message array and a
    connection state. *)
Definition hook : WsHook (ConnState * list TrackedMessage) ConnState :=
  {| connectionState := fst;
     OPEN := CsOpen;
     messages := snd;
     trackMessage := fun id w =>
       let '(r, l) := register id w.2 in (r, (w.1, l));
     trackMessage_ref := fun _ => 0%nat;
     coerced_gt_zero := fun _ => false |}.

Definition dq : string := String "034"%char EmptyString.

Fixpoint strip_prefix (p s : string) : option string :=
  match p, s with
  | EmptyString, _ => Some s
  | String a p', String b s' =>
      if Ascii.eqb a b then strip_prefix p' s' else None
  | String _ _, EmptyString => None
  end.

(** Split at the first double quote. *)
Fixpoint until_quote (s : string) : option (string * string) :=
  match s with
  | EmptyString => None
  | String c rest =>
      if Ascii.eqb c "034"%char then Some (EmptyString, rest)
      else match until_quote rest with
           | Some (a, b) => Some (String c a, b)
           | None => None
           end
  end.

(** A [JSON.parse] for the texts used below: [null] and one-field
    objects whose value is a string or a number 0-9 without escapes;
    anything else is a [SyntaxError]. *)
Definition parse (s : string) : Completion JsValue :=
  if String.eqb s "null" then Normal JNull
  else
    match strip_prefix ("{" +:+ dq) s with
    | Some s1 =>
        match until_quote s1 with
        | Some (key, s2) =>
            match strip_prefix (":" +:+ dq) s2 with
            | Some s3 =>
                match until_quote s3 with
                | Some (val, "}") => Normal (JObj [(key, JStr val)])
                | _ => Throw SyntaxError
                end
            | None =>
                match s2 with
                | String ":" (String d "}") =>
                    let n := Ascii.nat_of_ascii d in
                    if ((48 <=? n) && (n <=? 57))%nat
                    then Normal (JObj [(key, JNum (Z.of_nat (n - 48)))])
                    else Throw SyntaxError
                | _ => Throw SyntaxError
                end
            end
        | None => Throw SyntaxError
        end
    | None => Throw SyntaxError
    end.

(** The text [{"messageType":"B"}]. *)
Definition metadata_B : string :=
  "{" +:+ dq +:+ "messageType" +:+ dq +:+ ":" +:+ dq +:+ "B" +:+ dq +:+ "}".

Definition storage_get (store : list (string * string)) (k : string)
  : Completion (option string) :=
  Normal (snd <$> List.find (fun p => String.eqb (fst p) k) store).

(** A browser whose storage holds [store] and whose type-name lookup
    knows the type ["A"]. *)
Definition browser (store : list (string * string)) : LabelEnv :=
  {| getMessageTypeName := fun v =>
       match v with
       | JStr "A" => Normal (JStr "Type A")
       | _ => Normal (JStr "Unknown")
       end;
     window_defined := true;
     localStorage_getItem := storage_get store;
     JSON_parse := parse |}.

(** The same browser with a lookup that throws on every code. *)
Definition browser_throwing (store : list (string * string)) : LabelEnv :=
  {| getMessageTypeName := fun v => Throw (Thrown v);
     window_defined := true;
     localStorage_getItem := storage_get store;
     JSON_parse := parse |}.

End Demo.

(** ** Vocabulary of the statements *)

(** The cached metadata of message [id] yields the label [t]: a window
    exists, the stored text is a non-empty string, it parses, and the
    parsed value's [messageType] is truthy. *)
Definition cache_hit (env : LabelEnv) (id : string) (t : JsValue) : Prop :=
  window_defined env = true /\
  exists s md,
    localStorage_getItem env ("message_" +:+ id) = Normal (Some s) /\
    s <> "" /\
    JSON_parse env s = Normal md /\
    js_get md "messageType" = Normal t /\
    truthy t = true.

(** The view shows the connection badge [b]. *)
Definition shows_badge (v : View) (b : Badge) : Prop :=
  match v with
  | EmptyState => False
  | ActiveQueries _ b' _ => b' = b
  end.

(** What the row callback produces for a message. *)
Definition row_for (expanded : gmap string bool) (m : TrackedMessage) (r : Row) : Prop :=
  row_key r = messageId m
  /\ row_icon r = getStatusIcon (status m)
  /\ row_chevron r = (if isExpanded expanded (messageId m)
                      then ChevronUp else ChevronDown)
  /\ row_detail r = (if isExpanded expanded (messageId m)
                     then Some (messageId m) else None).

(** The rows of a view; the empty state has none. *)
Definition rows_of (v : View) : list Row :=
  match v with
  | EmptyState => []
  | ActiveQueries _ _ rows => rows
  end.

(** Two expansion records the component cannot tell apart: every row
    reads the same flag from both. *)
Definition same_expansion (m1 m2 : gmap string bool) : Prop :=
  forall id, isExpanded m1 id = isExpanded m2 id.

(** The result of rendering shows a view with property [P]. *)
Definition shows (r : Completion View * list LogEntry) (P : View -> Prop) : Prop :=
  match r.1 with
  | Normal v => P v
  | Throw _ => False
  end.

(** The body [{ "messages": [ { "id": ... }, ... ] }] of section 6. *)
Definition body_of (ids : list string) : JsValue :=
  JObj [("messages", JArr (map (fun id => JObj [("id", JStr id)]) ids))].

(** A 200 response carrying [body]. *)
Definition ok_response (body : JsValue) : FetchOutcome :=
  Respond {| ok := true; json := Normal body |}.


(** Lines 173-175: [messageId.slice(0, 8)] followed by the literal dots.
    (One character of the string stands for one UTF-16 code unit.) *)
Definition short_id (id : string) : string :=
  String.substring 0 8 id +:+ "...".

(** The row an element belongs to. *)
Definition target_id (el : Element) : string :=
  match el with
  | HeaderDiv id => id
  | ToggleButton id => id
  end.

(** A sequence of clicks, in order. *)
Definition click_all (targets : list Element) (st : gmap string bool)
  : gmap string bool :=
  foldl (fun st el => click el st) st targets.

(** How many of the clicks hit an element of row [id]. *)
Definition clicks_on (id : string) (targets : list Element) : nat :=
  length (filter (fun el => target_id el = id) targets).

(** The same hook reporting another connection state. *)
Definition with_connection {W CS : Type} (f : W -> CS) (hook : WsHook W CS)
  : WsHook W CS :=
  {| connectionState := f;
     OPEN := OPEN hook;
     messages := messages hook;
     trackMessage := trackMessage hook;
     trackMessage_ref := trackMessage_ref hook;
     coerced_gt_zero := coerced_gt_zero hook |}.

(** The id of the [i]-th message of the run below. *)
Fixpoint nth_id (i : nat) : string :=
  match i with
  | O => "m"
  | S k => String "x" (nth_id k)
  end.

(** A service state with [k] tracked messages. *)
Definition tracking (k : nat) : Demo.ConnState * list TrackedMessage :=
  (Demo.CsOpen,
   map (fun i => Demo.mk_message (nth_id i) "CREATED" JUndefined) (seq 0 k)).

(** [n] rounds of: ten seconds pass, then one more message is tracked. *)
Definition arrivals (n : nat)
  : list (@Event (Demo.ConnState * list TrackedMessage)) :=
  flat_map (fun i => [Elapse 10000; Push (tracking (S i))]) (seq 0 n).

(** Sanity checks of the embedding on explicit inputs. *)

Example parse_metadata_B :
  Demo.parse Demo.metadata_B = Normal (JObj [("messageType", JStr "B")]).
Proof. reflexivity. Qed.

Example label_from_payload :
  message_type_label (Demo.browser [("message_m1", Demo.metadata_B)])
    (Demo.mk_message "m1" "INFLIGHT" (JObj [("messageType", JStr "A")])) []
  = (Normal (JStr "Type A"), []).
Proof. reflexivity. Qed.

Example label_from_cache :
  message_type_label (Demo.browser [("message_m1", Demo.metadata_B)])
    (Demo.mk_message "m1" "INFLIGHT" JUndefined) []
  = (Normal (JStr "B"), []).
Proof. reflexivity. Qed.

Example label_default :
  message_type_label (Demo.browser [("message_m1", "not json")])
    (Demo.mk_message "m1" "INFLIGHT" JUndefined) []
  = (Normal (JStr "Cross-Chain Query"),
     [("Error parsing message metadata:", SyntaxError)]).
Proof. reflexivity. Qed.

Example label_payload_code_zero :
  message_type_label (Demo.browser [])
    (Demo.mk_message "m1" "INFLIGHT" (JObj [("messageType", JNum 0)])) []
  = (Normal (JStr "Cross-Chain Query"), []).
Proof. reflexivity. Qed.

Example label_from_cached_number :
  message_type_label
    (Demo.browser [("message_m1",
                    "{" +:+ Demo.dq +:+ "messageType" +:+ Demo.dq +:+ ":7}")])
    (Demo.mk_message "m1" "INFLIGHT" JUndefined) []
  = (Normal (JNum 7), []).
Proof. reflexivity. Qed.

Example click_button_toggles_once :
  click (ToggleButton "m1") ∅ = {["m1" := true]}
  /\ bubble [ToggleButton "m1"; HeaderDiv "m1"]
            {| propagationStopped := false |} {["m1" := true]}
     = {["m1" := false]}.
Proof. split; reflexivity. Qed.

(** ** Property reads and the monad *)

Lemma js_get_opt_normal (v : JsValue) (k : string) :
  exists x, js_get_opt v k = Normal x.
Proof.
  destruct v; simpl; eauto;
    destruct (String.eqb k "length"); eauto.
Qed.

Lemma js_get_opt_truthy (v : JsValue) (k : string) (x : JsValue) :
  js_get_opt v k = Normal x -> truthy x = true -> js_get v k = Normal x.
Proof.
  destruct v; simpl; intros Hget Ht; try exact Hget;
    inversion Hget; subst; discriminate.
Qed.

Lemma try_catch_normal {S A} (body : M S A) (h : JsError -> M S A) s a s' :
  body s = (Normal a, s') -> try_catch body h s = (Normal a, s').
Proof. unfold try_catch. intros ->. reflexivity. Qed.

Lemma try_catch_throw {S A} (body : M S A) (h : JsError -> M S A) s e s' :
  body s = (Throw e, s') -> try_catch body h s = h e s'.
Proof. unfold try_catch. intros ->. reflexivity. Qed.

(** ** Label resolution *)

Section Label.
Variable env : LabelEnv.

(** The inner [try] never lets an exception out, and it ends either with
    the label untouched or with a truthy [messageType] of the parsed
    metadata. *)
Lemma parse_metadata_caught (s : string) (f : Frame) :
  exists f',
    try_catch (parse_metadata env s)
      (fun e => console_error "Error parsing message metadata:" e) f
    = (Normal tt, f').
Proof.
  unfold try_catch, parse_metadata, bind, lift.
  destruct (JSON_parse env s) as [md|e]; simpl; [|eauto].
  destruct (js_get md "messageType") as [t|e]; simpl; [|eauto].
  destruct (truthy t); simpl; eauto.
Qed.

Lemma read_cached_label_hit (id : string) (t : JsValue) (f : Frame) :
  cache_hit env id t ->
  read_cached_label env id f
  = (Normal tt, {| messageType := t; console := console f |}).
Proof.
  intros [Hw (s & md & Hget & Hne & Hparse & Hmt & Ht)].
  unfold read_cached_label. rewrite Hw.
  unfold bind at 1, lift at 1. rewrite Hget.
  apply String.eqb_neq in Hne. rewrite Hne. simpl.
  unfold try_catch, parse_metadata, bind, lift.
  rewrite Hparse, Hmt, Ht. reflexivity.
Qed.

Lemma read_cached_label_miss (id : string) (f : Frame) :
  (forall t, ~ cache_hit env id t) ->
  exists r log',
    read_cached_label env id f
    = (r, {| messageType := messageType f; console := log' |}).
Proof.
  intros Hmiss. unfold read_cached_label.
  destruct (window_defined env) eqn:Hw; [|destruct f; unfold ret; eauto].
  unfold bind at 1, lift at 1.
  destruct (localStorage_getItem env ("message_" +:+ id)) as [[s|]|e] eqn:Hget;
    try (destruct f; unfold ret; eauto; fail).
  destruct (String.eqb s "") eqn:Hs; simpl; [destruct f; unfold ret; eauto|].
  unfold try_catch, parse_metadata, bind, lift.
  destruct (JSON_parse env s) as [md|e] eqn:Hparse; simpl; [|eauto].
  destruct (js_get md "messageType") as [t|e] eqn:Hmt; simpl; [|eauto].
  destruct (truthy t) eqn:Ht; simpl; [|destruct f; unfold ret; eauto].
  exfalso. apply (Hmiss t). split; [assumption|].
  exists s, md. apply String.eqb_neq in Hs. auto.
Qed.

End Label.

Lemma message_type_label_normal (env : LabelEnv) (m : TrackedMessage)
    (log : list LogEntry) :
  exists v log', message_type_label env m log = (Normal v, log').
Proof.
  unfold message_type_label, bind at 1, try_catch, gets.
  destruct (label_try_body env m _) as [[[]|e] f]; simpl; eauto.
Qed.

Lemma render_row_normal (env : LabelEnv) (expanded : gmap string bool)
    (m : TrackedMessage) (log : list LogEntry) :
  exists row log',
    render_row env expanded m log = (Normal row, log') /\ row_for expanded m row.
Proof.
  destruct (message_type_label_normal env m log) as (v & log' & Hl).
  unfold render_row, bind. rewrite Hl. unfold ret.
  eexists _, _. split; [reflexivity|]. repeat split.
Qed.

Lemma render_rows_normal (env : LabelEnv) (expanded : gmap string bool)
    (msgs : list TrackedMessage) (log : list LogEntry) :
  exists rows log',
    map_m (render_row env expanded) msgs log = (Normal rows, log')
    /\ Forall2 (row_for expanded) msgs rows.
Proof.
  revert log. induction msgs as [|m msgs IH]; intros log; simpl.
  - exists [], log. split; [reflexivity|constructor].
  - destruct (render_row_normal env expanded m log) as (row & log1 & Hr & Hrow).
    destruct (IH log1) as (rows & log2 & Hrs & Hrows).
    exists (row :: rows), log2. unfold bind. rewrite Hr, Hrs. unfold ret.
    split; [reflexivity|constructor; assumption].
Qed.


(** A console entry is only ever written on the way to the default label. *)
Lemma logged_means_default (env : LabelEnv) (m : TrackedMessage)
    (log log' : list LogEntry) (v : JsValue) :
  message_type_label env m log = (Normal v, log') ->
  log' <> log -> v = default_label.
Proof.
  unfold message_type_label, label_try_body, read_cached_label, parse_metadata,
    bind, lift, try_catch, gets, ret, set_messageType, console_error, modify.
  repeat case_match; simplify_eq/=; intros; simplify_eq/=;
    try reflexivity; try contradiction.
Qed.

(** C1 (as amended). The label of a row is resolved in this order, first
    match winning. (1) If [message.data?.messageType] is truthy, the label
    is what [getMessageTypeName] returns for it, or the default label if
    that call throws; the cache is not consulted. (2) Otherwise, if the
    cache holds a usable entry (a window exists, the stored text is
    non-empty, parses, and the parsed [messageType] is truthy), that value
    is the label, verbatim, and nothing is logged. (3) Otherwise the label
    is exactly "Cross-Chain Query". *)
Theorem label_resolution_order (env : LabelEnv) (m : TrackedMessage)
    (log : list LogEntry) (mt : JsValue) :
  js_get_opt (data m) "messageType" = Normal mt ->
  (truthy mt = true ->
     (message_type_label env m log).1
     = Normal (match getMessageTypeName env mt with
               | Normal name => name
               | Throw _ => default_label
               end))
  /\ (truthy mt = false ->
      forall t, cache_hit env (messageId m) t ->
        message_type_label env m log = (Normal t, log))
  /\ (truthy mt = false ->
      (forall t, ~ cache_hit env (messageId m) t) ->
        (message_type_label env m log).1 = Normal default_label).
Proof.
  intros Hopt. unfold message_type_label, label_try_body.
  repeat split.
  - intros Ht. pose proof (js_get_opt_truthy _ _ _ Hopt Ht) as Hget.
    unfold bind, lift, try_catch. rewrite Hopt, Ht, Hget.
    destruct (getMessageTypeName env mt); reflexivity.
  - intros Ht t Hhit.
    unfold bind at 1, try_catch, bind at 1, lift at 1.
    rewrite Hopt, Ht, (read_cached_label_hit env _ t _ Hhit). reflexivity.
  - intros Ht Hmiss.
    unfold bind at 1, try_catch, bind at 1, lift at 1. rewrite Hopt, Ht.
    destruct (read_cached_label_miss env (messageId m)
                {| messageType := default_label; console := log |} Hmiss)
      as (r & log' & ->).
    destruct r; reflexivity.
Qed.

Lemma label_resolution_order_witness :
  (message_type_label (Demo.browser [("message_m1", Demo.metadata_B)])
     (Demo.mk_message "m1" "INFLIGHT" (JObj [("messageType", JStr "A")])) []).1
  = Normal (JStr "Type A")
  /\ message_type_label (Demo.browser [("message_m1", Demo.metadata_B)])
       (Demo.mk_message "m1" "INFLIGHT" (JObj [])) []
     = (Normal (JStr "B"), []).
Proof.
  split.
  - apply (label_resolution_order
             (Demo.browser [("message_m1", Demo.metadata_B)])
             (Demo.mk_message "m1" "INFLIGHT" (JObj [("messageType", JStr "A")]))
             [] (JStr "A") eq_refl); reflexivity.
  - apply (label_resolution_order
             (Demo.browser [("message_m1", Demo.metadata_B)])
             (Demo.mk_message "m1" "INFLIGHT" (JObj []))
             [] JUndefined eq_refl); [reflexivity|].
    split; [reflexivity|].
    exists Demo.metadata_B, (JObj [("messageType", JStr "B")]).
    repeat split; try reflexivity. discriminate.
Defined.

(** C1 as stated fails: a payload whose [messageType] is present but is
    the empty string is not resolved through the name lookup; with cached
    metadata [{"messageType":"B"}] the row shows "B", while the lookup of
    the payload's value gives "Unknown". *)
Lemma label_present_payload_not_resolved :
  ~ (forall (env : LabelEnv) (m : TrackedMessage) (log : list LogEntry)
            (v : JsValue),
       js_get (data m) "messageType" = Normal v ->
       v <> JUndefined ->
       (message_type_label env m log).1 = getMessageTypeName env v).
Proof.
  intros H.
  specialize (H (Demo.browser [("message_m1", Demo.metadata_B)])
                (Demo.mk_message "m1" "INFLIGHT" (JObj [("messageType", JStr "")]))
                [] (JStr "") eq_refl).
  vm_compute in H.
  assert (Hne : JStr "" <> JUndefined) by discriminate.
  specialize (H Hne). discriminate H.
Qed.

(** The row callback puts the computed label, as it is, into the row. *)
Lemma render_row_intro (env : LabelEnv) (expanded : gmap string bool)
    (m : TrackedMessage) (log log' : list LogEntry) (v : JsValue) :
  message_type_label env m log = (Normal v, log') ->
  exists row,
    render_row env expanded m log = (Normal row, log') /\ row_label row = v.
Proof.
  intros Hl. unfold render_row, bind. rewrite Hl. unfold ret.
  eexists. split; reflexivity.
Qed.

Lemma render_row_inv (env : LabelEnv) (expanded : gmap string bool)
    (m : TrackedMessage) (log log' : list LogEntry) (row : Row) :
  render_row env expanded m log = (Normal row, log') ->
  message_type_label env m log = (Normal (row_label row), log').
Proof.
  destruct (message_type_label_normal env m log) as (v & l & Hl).
  unfold render_row, bind. rewrite Hl. unfold ret.
  intros [= <- <-]. reflexivity.
Qed.

(** The three places where the label computation can throw, and what it
    returns there. *)
Lemma label_throw_cases (env : LabelEnv) (m : TrackedMessage)
    (log : list LogEntry) :
  (forall mt e,
     js_get_opt (data m) "messageType" = Normal mt -> truthy mt = true ->
     getMessageTypeName env mt = Throw e ->
     message_type_label env m log
     = (Normal default_label, log ++ [("Error getting message type:", e)]))
  /\ (forall mt e,
        js_get_opt (data m) "messageType" = Normal mt -> truthy mt = false ->
        window_defined env = true ->
        localStorage_getItem env ("message_" +:+ messageId m) = Throw e ->
        message_type_label env m log
        = (Normal default_label, log ++ [("Error getting message type:", e)]))
  /\ (forall mt s e,
        js_get_opt (data m) "messageType" = Normal mt -> truthy mt = false ->
        window_defined env = true ->
        localStorage_getItem env ("message_" +:+ messageId m) = Normal (Some s) ->
        s <> "" ->
        JSON_parse env s = Throw e
        \/ (exists md, JSON_parse env s = Normal md
                       /\ js_get md "messageType" = Throw e) ->
        message_type_label env m log
        = (Normal default_label, log ++ [("Error parsing message metadata:", e)])).
Proof.
  unfold message_type_label, label_try_body. repeat split.
  - intros mt e Hopt Ht Hthrow.
    pose proof (js_get_opt_truthy _ _ _ Hopt Ht) as Hget.
    unfold bind, lift, try_catch. rewrite Hopt, Ht, Hget, Hthrow. reflexivity.
  - intros mt e Hopt Ht Hw Hthrow.
    unfold bind, lift, try_catch, read_cached_label, bind, lift.
    rewrite Hopt, Ht, Hw, Hthrow. reflexivity.
  - intros mt s e Hopt Ht Hw Hget Hne Hthrow.
    apply String.eqb_neq in Hne.
    unfold bind, lift, try_catch, read_cached_label, parse_metadata,
      bind, lift, try_catch.
    rewrite Hopt, Ht, Hw, Hget, Hne. simpl.
    destruct Hthrow as [Hp | (md & Hp & Hg)].
    + rewrite Hp. reflexivity.
    + rewrite Hp, Hg. reflexivity.
Qed.

(** C4. No exception raised while a row's label is computed leaves the
    row callback: the callback always returns a row, and the row's label
    is the value the label computation ended with. Whenever something was
    caught and logged on the way, the row's label is the default
    "Cross-Chain Query"; and each step that can throw -- the name lookup,
    [localStorage.getItem], [JSON.parse], or the read of [messageType]
    from parsed metadata that is [null] -- is caught and logged, and the
    row is rendered with the default label. *)
Theorem label_exceptions_caught (env : LabelEnv) (m : TrackedMessage)
    (log : list LogEntry) (expanded : gmap string bool) :
  (exists row log',
     render_row env expanded m log = (Normal row, log')
     /\ message_type_label env m log = (Normal (row_label row), log'))
  /\ (forall row log',
        render_row env expanded m log = (Normal row, log') ->
        log' <> log -> row_label row = default_label)
  /\ (forall mt e,
        js_get_opt (data m) "messageType" = Normal mt -> truthy mt = true ->
        getMessageTypeName env mt = Throw e ->
        exists row,
          render_row env expanded m log
          = (Normal row, log ++ [("Error getting message type:", e)])
          /\ row_label row = default_label)
  /\ (forall mt e,
        js_get_opt (data m) "messageType" = Normal mt -> truthy mt = false ->
        window_defined env = true ->
        localStorage_getItem env ("message_" +:+ messageId m) = Throw e ->
        exists row,
          render_row env expanded m log
          = (Normal row, log ++ [("Error getting message type:", e)])
          /\ row_label row = default_label)
  /\ (forall mt s e,
        js_get_opt (data m) "messageType" = Normal mt -> truthy mt = false ->
        window_defined env = true ->
        localStorage_getItem env ("message_" +:+ messageId m) = Normal (Some s) ->
        s <> "" ->
        JSON_parse env s = Throw e
        \/ (exists md, JSON_parse env s = Normal md
                       /\ js_get md "messageType" = Throw e) ->
        exists row,
          render_row env expanded m log
          = (Normal row, log ++ [("Error parsing message metadata:", e)])
          /\ row_label row = default_label).
Proof.
  destruct (label_throw_cases env m log) as (Hname & Hstore & Hparse).
  split; [|split; [|split; [|split]]].
  - destruct (message_type_label_normal env m log) as (v & log' & Hl).
    destruct (render_row_intro env expanded m log log' v Hl) as (row & Hr & Hv).
    exists row, log'. split; [exact Hr|]. rewrite Hv. exact Hl.
  - intros row log' Hr Hne.
    apply (logged_means_default env m log log'); [|exact Hne].
    apply (render_row_inv env expanded). exact Hr.
  - intros mt e Hopt Ht Hthrow. apply render_row_intro. eauto.
  - intros mt e Hopt Ht Hw Hthrow. apply render_row_intro. eauto.
  - intros mt s e Hopt Ht Hw Hget Hne Hthrow. apply render_row_intro. eauto.
Qed.

Lemma label_exceptions_caught_witness :
  (exists row,
     render_row (Demo.browser_throwing []) ∅
       (Demo.mk_message "m1" "FAILED" (JObj [("messageType", JStr "A")])) []
     = (Normal row, [] ++ [("Error getting message type:", Thrown (JStr "A"))])
     /\ row_label row = default_label)
  /\ (exists row,
        render_row (Demo.browser [("message_m1", "null")]) ∅
          (Demo.mk_message "m1" "FAILED" JUndefined) []
        = (Normal row, [] ++ [("Error parsing message metadata:", TypeError)])
        /\ row_label row = default_label).
Proof.
  split.
  - destruct (label_exceptions_caught (Demo.browser_throwing [])
                (Demo.mk_message "m1" "FAILED" (JObj [("messageType", JStr "A")]))
                [] ∅) as (_ & _ & H & _).
    exact (H (JStr "A") (Thrown (JStr "A")) eq_refl eq_refl eq_refl).
  - destruct (label_exceptions_caught (Demo.browser [("message_m1", "null")])
                (Demo.mk_message "m1" "FAILED" JUndefined)
                [] ∅) as (_ & _ & _ & _ & H).
    refine (H JUndefined "null" TypeError eq_refl eq_refl eq_refl eq_refl _ _).
    + discriminate.
    + right. exists JNull. split; reflexivity.
Defined.

(** ** Status icon *)

(** C6. The icon of a row is a total function of the status: COMPLETED
    gives the green check, FAILED the red cross, INFLIGHT the blue
    transfer arrows, DELIVERED the purple check, and every other status,
    CREATED and unknown ones alike, the yellow clock that CREATED gets. *)
Theorem status_icon_mapping (st : string) :
  getStatusIcon "COMPLETED"
  = {| glyph := CheckCircle; className := "h-4 w-4 text-green-400" |}
  /\ getStatusIcon "FAILED"
     = {| glyph := XCircle; className := "h-4 w-4 text-red-400" |}
  /\ getStatusIcon "INFLIGHT"
     = {| glyph := ArrowRightLeft; className := "h-4 w-4 text-blue-400" |}
  /\ getStatusIcon "DELIVERED"
     = {| glyph := CheckCircle; className := "h-4 w-4 text-purple-400" |}
  /\ getStatusIcon "CREATED"
     = {| glyph := Clock; className := "h-4 w-4 text-yellow-400" |}
  /\ (st <> "COMPLETED" -> st <> "FAILED" -> st <> "INFLIGHT" ->
      st <> "DELIVERED" ->
      getStatusIcon st = getStatusIcon "CREATED").
Proof.
  repeat split; try reflexivity.
  intros H1 H2 H3 H4. unfold getStatusIcon.
  apply String.eqb_neq in H1, H2, H3, H4.
  rewrite H1, H2, H3, H4. reflexivity.
Qed.

Lemma status_icon_mapping_witness :
  getStatusIcon "EXPIRED" = getStatusIcon "CREATED"
  /\ glyph (getStatusIcon "EXPIRED") = Clock.
Proof.
  split.
  - apply (status_icon_mapping "EXPIRED"); discriminate.
  - reflexivity.
Defined.

(** ** Expansion state *)

Lemma isExpanded_toggle_same (id : string) (m : gmap string bool) :
  isExpanded (toggleExpanded id m) id = negb (isExpanded m id).
Proof. unfold toggleExpanded, isExpanded. rewrite lookup_insert_eq. reflexivity. Qed.

Lemma lookup_toggle_other (id id' : string) (m : gmap string bool) :
  id' <> id -> toggleExpanded id m !! id' = m !! id'.
Proof. intros Hne. unfold toggleExpanded. apply lookup_insert_ne. congruence. Qed.

Lemma click_header (id : string) (m : gmap string bool) :
  click (HeaderDiv id) m = toggleExpanded id m.
Proof. reflexivity. Qed.

(** The button's handler stops the propagation, so the header's handler
    does not run and the row is toggled once, not twice. *)
Lemma click_button (id : string) (m : gmap string bool) :
  click (ToggleButton id) m = toggleExpanded id m.
Proof. reflexivity. Qed.

(** C8 (as amended). Toggling a row twice brings every row's expansion
    flag back to what it was; the record itself is the same again exactly
    when the row already had an entry (a row toggled for the first time
    keeps an explicit entry, which reads like the missing one).
    One toggle flips the row's own flag and leaves the entry of every
    other row untouched. A click on the row header and a click on the
    toggle button each perform exactly one toggle of that row: the
    button's click does not reach the header. *)
Theorem toggle_twice_and_locality (id : string) (m : gmap string bool) :
  same_expansion (toggleExpanded id (toggleExpanded id m)) m
  /\ (is_Some (m !! id) <-> toggleExpanded id (toggleExpanded id m) = m)
  /\ isExpanded (toggleExpanded id m) id = negb (isExpanded m id)
  /\ (forall id', id' <> id -> toggleExpanded id m !! id' = m !! id')
  /\ click (HeaderDiv id) m = toggleExpanded id m
  /\ click (ToggleButton id) m = toggleExpanded id m
  /\ same_expansion (click (ToggleButton id) (click (ToggleButton id) m)) m.
Proof.
  assert (Htwice : same_expansion (toggleExpanded id (toggleExpanded id m)) m).
  { intros k. destruct (decide (k = id)) as [->|Hne].
    - rewrite !isExpanded_toggle_same. apply negb_involutive.
    - unfold isExpanded. rewrite !lookup_toggle_other by assumption. reflexivity. }
  repeat split.
  - exact Htwice.
  - intros [b Hb]. unfold toggleExpanded at 1.
    rewrite isExpanded_toggle_same. unfold toggleExpanded.
    rewrite insert_insert_eq, negb_involutive.
    unfold isExpanded. rewrite Hb. simpl. apply insert_id. exact Hb.
  - intros Heq. rewrite <- Heq. unfold toggleExpanded at 1.
    rewrite lookup_insert_eq. eauto.
  - apply isExpanded_toggle_same.
  - intros id'. apply lookup_toggle_other.
  - rewrite !click_button. exact Htwice.
Qed.

(** C8 as stated fails: two toggles of a row that has no entry do not
    give back the record; the empty record becomes the one that maps the
    row to [false]. *)
Lemma toggle_twice_leaves_entry :
  ~ (forall (id : string) (m : gmap string bool),
       toggleExpanded id (toggleExpanded id m) = m).
Proof.
  intros H. specialize (H "m1" ∅).
  assert (Hl : toggleExpanded "m1" (toggleExpanded "m1" ∅) !! "m1" = Some false)
    by reflexivity.
  rewrite H, lookup_empty in Hl. discriminate Hl.
Qed.

Lemma toggle_twice_and_locality_witness :
  toggleExpanded "m1" (toggleExpanded "m1" {["m1" := true; "m2" := false]})
  = {["m1" := true; "m2" := false]}
  /\ toggleExpanded "m1" {["m1" := true; "m2" := false]} !! "m2" = Some false.
Proof.
  split.
  - apply (toggle_twice_and_locality "m1" {["m1" := true; "m2" := false]}).
    exists true. reflexivity.
  - destruct (toggle_twice_and_locality "m1" {["m1" := true; "m2" := false]})
      as (_ & _ & _ & H & _).
    rewrite (H "m2"); [reflexivity | discriminate].
Defined.

(** C10. The claim fails on the code for the ids that name a member of
    [Object.prototype]: a row whose id has no entry in the expansion
    record, but names such a member, reads the inherited value as its
    flag and renders expanded, chevron up and detail sub-view mounted,
    without having been toggled; that is so right after mount, when the
    record is empty. Its first toggle collapses it. *)
Theorem inherited_id_row_expanded (env : LabelEnv) (expanded : gmap string bool)
    (m : TrackedMessage) (log : list LogEntry) :
  inherited (messageId m) = true ->
  expanded !! messageId m = None ->
  (exists row log',
     render_row env expanded m log = (Normal row, log')
     /\ row_chevron row = ChevronUp
     /\ row_detail row = Some (messageId m))
  /\ (exists row log',
        render_row env ∅ m log = (Normal row, log')
        /\ row_chevron row = ChevronUp
        /\ row_detail row = Some (messageId m))
  /\ (exists row log',
        render_row env (toggleExpanded (messageId m) expanded) m log
        = (Normal row, log')
        /\ row_chevron row = ChevronDown
        /\ row_detail row = None).
Proof.
  intros Hinh Habs. repeat split.
  - destruct (render_row_normal env expanded m log)
      as (row & log' & Hr & _ & _ & Hc & Hd).
    unfold isExpanded in Hc, Hd. rewrite Habs, Hinh in Hc, Hd. eauto.
  - destruct (render_row_normal env ∅ m log)
      as (row & log' & Hr & _ & _ & Hc & Hd).
    unfold isExpanded in Hc, Hd. rewrite lookup_empty, Hinh in Hc, Hd. eauto.
  - destruct (render_row_normal env (toggleExpanded (messageId m) expanded) m log)
      as (row & log' & Hr & _ & _ & Hc & Hd).
    rewrite isExpanded_toggle_same in Hc, Hd.
    unfold isExpanded in Hc, Hd. rewrite Habs, Hinh in Hc, Hd. eauto.
Qed.

Lemma inherited_id_row_expanded_witness :
  exists row log',
    render_row (Demo.browser []) ∅
      (Demo.mk_message "toString" "CREATED" JUndefined) [] = (Normal row, log')
    /\ row_chevron row = ChevronUp /\ row_detail row = Some "toString".
Proof.
  apply (inherited_id_row_expanded (Demo.browser []) ∅
           (Demo.mk_message "toString" "CREATED" JUndefined) []);
    reflexivity.
Defined.

(** X18. A row whose id has no entry in the expansion record, and does
    not name a member of [Object.prototype], renders collapsed: chevron
    down and no detail sub-view. That is the case of every such row right
    after mount, when the record is empty. Toggling other rows leaves it
    without an entry; toggling the row itself mounts the detail sub-view
    for its id. *)
Theorem absent_row_collapsed (env : LabelEnv) (expanded : gmap string bool)
    (m : TrackedMessage) (log : list LogEntry) :
  inherited (messageId m) = false ->
  expanded !! messageId m = None ->
  (exists row log',
     render_row env expanded m log = (Normal row, log')
     /\ row_chevron row = ChevronDown /\ row_detail row = None)
  /\ (exists row log',
        render_row env ∅ m log = (Normal row, log')
        /\ row_chevron row = ChevronDown /\ row_detail row = None)
  /\ (forall other, other <> messageId m ->
        toggleExpanded other expanded !! messageId m = None)
  /\ (exists row log',
        render_row env (toggleExpanded (messageId m) expanded) m log
        = (Normal row, log')
        /\ row_chevron row = ChevronUp
        /\ row_detail row = Some (messageId m)).
Proof.
  intros Hinh Habs. repeat split.
  - destruct (render_row_normal env expanded m log)
      as (row & log' & Hr & _ & _ & Hc & Hd).
    unfold isExpanded in Hc, Hd. rewrite Habs, Hinh in Hc, Hd. eauto.
  - destruct (render_row_normal env ∅ m log)
      as (row & log' & Hr & _ & _ & Hc & Hd).
    unfold isExpanded in Hc, Hd. rewrite lookup_empty, Hinh in Hc, Hd. eauto.
  - intros other Hne. rewrite lookup_toggle_other by congruence. exact Habs.
  - destruct (render_row_normal env (toggleExpanded (messageId m) expanded) m log)
      as (row & log' & Hr & _ & _ & Hc & Hd).
    rewrite isExpanded_toggle_same in Hc, Hd.
    unfold isExpanded in Hc, Hd. rewrite Habs, Hinh in Hc, Hd. eauto.
Qed.

Lemma absent_row_collapsed_witness :
  exists row log',
    render_row (Demo.browser []) {["m2" := true]}
      (Demo.mk_message "m1" "CREATED" JUndefined) [] = (Normal row, log')
    /\ row_chevron row = ChevronDown /\ row_detail row = None.
Proof.
  apply (absent_row_collapsed (Demo.browser []) {["m2" := true]}
           (Demo.mk_message "m1" "CREATED" JUndefined) []);
    reflexivity.
Defined.

(** ** The rendered view *)

Section RenderFacts.
Context {W CS : Type} `{EqDecision CS}.
Variables (env : LabelEnv) (hook : WsHook W CS).

Lemma render_empty (w : W) (expanded : gmap string bool) (log : list LogEntry) :
  length (messages hook w) = 0%nat ->
  render env hook w expanded log = (Normal EmptyState, log).
Proof.
  intros Hlen. unfold render. rewrite length_map, Hlen. reflexivity.
Qed.

Lemma render_nonempty (w : W) (expanded : gmap string bool) (log : list LogEntry) :
  (0 < length (messages hook w))%nat ->
  exists rows log',
    render env hook w expanded log
    = (Normal (ActiveQueries (length (messages hook w))
                 (connection_badge hook (connectionState hook w)) rows), log')
    /\ Forall2 (row_for expanded) (messages hook w) rows.
Proof.
  intros Hlen. unfold render. rewrite length_map.
  destruct (Nat.eqb_spec (length (messages hook w)) 0) as [Hz|_]; [lia|].
  destruct (render_rows_normal env expanded (messages hook w) log)
    as (rows & log' & Hrows & Hall).
  exists rows, log'. unfold bind. rewrite Hrows. unfold ret. auto.
Qed.

(** C7 (as amended). Whenever at least one message is tracked, the view
    shows a connection badge that is a function of the connection state
    alone: "Live Updates" if and only if the state is [OPEN], "Polling"
    for every other state; computing it touches nothing. With no tracked
    message the view is the empty state and shows no badge at all. *)
Theorem connection_badge_when_listed (w : W) (expanded : gmap string bool)
    (log : list LogEntry) :
  ((0 < length (messages hook w))%nat ->
     shows (render env hook w expanded log)
       (fun v => shows_badge v (connection_badge hook (connectionState hook w)))
     /\ (shows (render env hook w expanded log)
           (fun v => shows_badge v LiveUpdates)
         <-> connectionState hook w = OPEN hook)
     /\ (connectionState hook w <> OPEN hook ->
         shows (render env hook w expanded log)
           (fun v => shows_badge v PollingBadge)))
  /\ (length (messages hook w) = 0%nat ->
      forall b, ~ shows (render env hook w expanded log)
                        (fun v => shows_badge v b)).
Proof.
  split.
  - intros Hlen.
    destruct (render_nonempty w expanded log Hlen) as (rows & log' & Hr & _).
    unfold shows. rewrite Hr. simpl. unfold connection_badge.
    repeat split.
    + destruct (decide (connectionState hook w = OPEN hook)); [auto|discriminate].
    + intros ->. destruct (decide (OPEN hook = OPEN hook)); [reflexivity|contradiction].
    + intros Hne. destruct (decide (connectionState hook w = OPEN hook));
        [contradiction|reflexivity].
  - intros Hlen b. unfold shows. rewrite (render_empty w expanded log Hlen).
    simpl. auto.
Qed.

End RenderFacts.

(** C7 as stated fails: with the connection open and no tracked message
    the view is the empty state, which shows no "Live Updates" badge. *)
Lemma open_connection_without_badge :
  ~ (forall (w : Demo.ConnState * list TrackedMessage),
       connectionState Demo.hook w = OPEN Demo.hook ->
       shows (render (Demo.browser []) Demo.hook w ∅ [])
             (fun v => shows_badge v LiveUpdates)).
Proof.
  intros H. exact (H (Demo.CsOpen, []) eq_refl).
Qed.

Lemma connection_badge_when_listed_witness :
  shows (render (Demo.browser []) Demo.hook
           (Demo.CsConnecting, [Demo.mk_message "m1" "CREATED" JUndefined]) ∅ [])
        (fun v => shows_badge v PollingBadge).
Proof.
  apply (connection_badge_when_listed (Demo.browser []) Demo.hook
           (Demo.CsConnecting, [Demo.mk_message "m1" "CREATED" JUndefined]) ∅ []).
  - simpl. lia.
  - discriminate.
Defined.

(** ** The poller's continuation *)

Section PollerFacts.
Context {W CS : Type}.
Variable hook : WsHook W CS.

(** The continuation never throws: whatever happens inside the [try] is
    caught, and the handler only logs. *)
Lemma resume_normal (o : FetchOutcome) (s : Sys W) :
  (fetchRealMessages_resume hook o s).1 = Normal tt.
Proof.
  unfold fetchRealMessages_resume, try_catch.
  destruct (fetch_try_body hook o s) as [[[]|e] s']; reflexivity.
Qed.



(** The continuation skips the registration loop when [data.messages] is
    missing or is an empty array. *)
Lemma resume_nothing_to_track (data : JsValue) (s : Sys W) :
  js_get data "messages" = Normal JUndefined
  \/ js_get data "messages" = Normal (JArr []) ->
  fetchRealMessages_resume hook (ok_response data) s = (Normal tt, s).
Proof.
  intros Hm. unfold fetchRealMessages_resume, try_catch, fetch_try_body,
    ok_response, bind, lift. simpl.
  destruct Hm as [-> | ->]; reflexivity.
Qed.

Lemma resume_messages_array (x : JsValue) (l : list JsValue) (s : Sys W) :
  fetchRealMessages_resume hook
    (ok_response (JObj [("messages", JArr (x :: l))])) s
  = try_catch
      (for_each (fun msg => do id <- lift (js_get msg "id");
                            call_trackMessage hook id) (x :: l))
      (fun error => sys_console_error "Error fetching real messages:" error) s.
Proof. reflexivity. Qed.

Lemma resume_body_of (ids : list string) (s : Sys W) :
  fetchRealMessages_resume hook (ok_response (body_of ids)) s
  = try_catch (track_each hook ids)
      (fun error => sys_console_error "Error fetching real messages:" error) s.
Proof.
  destruct ids as [|id ids]; [reflexivity|].
  unfold body_of, track_each. simpl map. apply resume_messages_array.
Qed.

Lemma track_each_returns (ids : list string) (s : Sys W) :
  (forall id w, (trackMessage hook (JStr id) w).1 = Normal tt) ->
  exists s',
    track_each hook ids s = (Normal tt, s')
    /\ trackCalls s' = trackCalls s ++ map JStr ids
    /\ client s' = register_all hook ids (client s)
    /\ console_log s' = console_log s
    /\ clock s' = clock s /\ requests s' = requests s
    /\ pending s' = pending s /\ timers s' = timers s
    /\ next_timer s' = next_timer s /\ effect s' = effect s.
Proof.
  intros Hret. revert s. induction ids as [|id ids IH]; intros s.
  - exists s. unfold track_each. simpl. rewrite app_nil_r. unfold ret.
    repeat split.
  - pose proof (Hret id (client s)) as Hr.
    destruct (trackMessage hook (JStr id) (client s)) as [r w'] eqn:Htm.
    simpl in Hr. subst r.
    set (s1 := {| clock := clock s; console_log := console_log s;
                  requests := requests s; pending := pending s;
                  trackCalls := trackCalls s ++ [JStr id]; client := w';
                  timers := timers s; next_timer := next_timer s;
                  effect := effect s |}).
    assert (Hstep : track_each hook (id :: ids) s = track_each hook ids s1).
    { unfold track_each. simpl. unfold bind, lift, call_trackMessage.
      rewrite Htm. reflexivity. }
    destruct (IH s1) as (s' & Hrun & Hc & Hw & Hl & Hrest).
    exists s'. rewrite Hstep, Hrun, Hc, Hw, Hl. simpl.
    rewrite <- app_assoc. unfold register_all. simpl. rewrite Htm. simpl.
    repeat split; apply Hrest.
Qed.


End PollerFacts.

(** C9. When the fetch succeeds but the parsed body has no [messages]
    field, or an empty [messages] array, the continuation returns without
    an exception and leaves everything as it was: [trackMessage] is not
    called and nothing is logged. More generally [trackMessage] is only
    ever called for a non-empty [messages] array. *)
Theorem poll_ok_without_messages {W CS : Type} (hook : WsHook W CS)
    (data : JsValue) (s : Sys W) :
  (js_get data "messages" = Normal JUndefined
   \/ js_get data "messages" = Normal (JArr []) ->
   fetchRealMessages_resume hook (ok_response data) s = (Normal tt, s))
  /\ ((forall x l, js_get data "messages" <> Normal (JArr (x :: l))) ->
      (fetchRealMessages_resume hook (ok_response data) s).1 = Normal tt
      /\ trackCalls (fetchRealMessages_resume hook (ok_response data) s).2
         = trackCalls s
      /\ client (fetchRealMessages_resume hook (ok_response data) s).2
         = client s).
Proof.
  split; [apply resume_nothing_to_track|].
  intros Hno. split; [apply resume_normal|].
  unfold fetchRealMessages_resume, try_catch, fetch_try_body, ok_response,
    bind, lift. cbn [ok json].
  destruct (js_get data "messages") as [msgs|e] eqn:Hm; [|split; reflexivity].
  destruct msgs as [| |b|z|str|l|fs];
    try (destruct l as [|x l]; [|exfalso; exact (Hno x l eq_refl)]);
    cbn;
    repeat match goal with
           | |- context [if ?c then _ else _] => destruct c; cbn
           end;
    split; reflexivity.
Qed.

Lemma poll_ok_without_messages_witness :
  fetchRealMessages_resume Demo.hook (ok_response (JObj [("total", JNum 0)]))
    (initial 0 (Demo.CsConnecting, []))
  = (Normal tt, initial 0 (Demo.CsConnecting, []))
  /\ fetchRealMessages_resume Demo.hook (ok_response (body_of []))
       (initial 0 (Demo.CsConnecting, []))
     = (Normal tt, initial 0 (Demo.CsConnecting, [])).
Proof.
  split.
  - apply (poll_ok_without_messages Demo.hook (JObj [("total", JNum 0)])).
    left. reflexivity.
  - apply (poll_ok_without_messages Demo.hook (body_of [])).
    right. reflexivity.
Defined.

(** ** The schedule *)

Section ScheduleFacts.
Context {W CS : Type}.
Variable hook : WsHook W CS.

Lemma same_browser_refl (s : Sys W) : same_browser s s.
Proof. repeat split. Qed.

Lemma same_browser_trans (s1 s2 s3 : Sys W) :
  same_browser s1 s2 -> same_browser s2 s3 -> same_browser s1 s3.
Proof.
  intros (A1 & A2 & A3 & A4 & A5 & A6) (B1 & B2 & B3 & B4 & B5 & B6).
  repeat split; congruence.
Qed.

Lemma keeps_ret {A} (a : A) : keeps (ret a : M (Sys W) A).
Proof. intros s. apply same_browser_refl. Qed.

Lemma keeps_lift {A} (c : Completion A) : keeps (lift c : M (Sys W) A).
Proof. intros s. apply same_browser_refl. Qed.

Lemma keeps_throw {A} (e : JsError) : keeps (throw e : M (Sys W) A).
Proof. intros s. apply same_browser_refl. Qed.

Lemma keeps_bind {A B} (m : M (Sys W) A) (k : A -> M (Sys W) B) :
  keeps m -> (forall a, keeps (k a)) -> keeps (bind m k).
Proof.
  intros Hm Hk s. unfold bind. specialize (Hm s).
  destruct (m s) as [[a|e] s1]; simpl in *; [|exact Hm].
  eapply same_browser_trans; [exact Hm|apply Hk].
Qed.

Lemma keeps_try_catch {A} (m : M (Sys W) A) (h : JsError -> M (Sys W) A) :
  keeps m -> (forall e, keeps (h e)) -> keeps (try_catch m h).
Proof.
  intros Hm Hh s. unfold try_catch. specialize (Hm s).
  destruct (m s) as [[a|e] s1]; simpl in *; [exact Hm|].
  eapply same_browser_trans; [exact Hm|apply Hh].
Qed.

Lemma keeps_for_each {A} (f : A -> M (Sys W) unit) (l : list A) :
  (forall a, keeps (f a)) -> keeps (for_each f l).
Proof.
  intros Hf. induction l as [|x l IH]; simpl.
  - apply keeps_ret.
  - apply keeps_bind; [apply Hf|intros _; exact IH].
Qed.

Lemma keeps_call_trackMessage (id : JsValue) : keeps (call_trackMessage hook id).
Proof.
  intros s. unfold call_trackMessage.
  destruct (trackMessage hook id (client s)); repeat split.
Qed.

Lemma keeps_console_error (tag : string) (e : JsError) :
  keeps (sys_console_error tag e : M (Sys W) unit).
Proof. intros s. repeat split. Qed.

Lemma keeps_resume (o : FetchOutcome) : keeps (fetchRealMessages_resume hook o).
Proof.
  unfold fetchRealMessages_resume.
  apply keeps_try_catch; [|intros e; apply keeps_console_error].
  unfold fetch_try_body.
  apply keeps_bind; [apply keeps_lift|intros r].
  destruct (ok r); [|apply keeps_ret].
  apply keeps_bind; [apply keeps_lift|intros data].
  apply keeps_bind; [apply keeps_lift|intros msgs].
  destruct (truthy msgs); [|apply keeps_ret].
  apply keeps_bind; [apply keeps_lift|intros msgs1].
  apply keeps_bind; [apply keeps_lift|intros len].
  destruct (js_gt_zero hook len); [|apply keeps_ret].
  apply keeps_bind; [apply keeps_lift|intros msgs2].
  unfold js_forEach. destruct msgs2; try apply keeps_throw.
  apply keeps_for_each. intros msg.
  apply keeps_bind; [apply keeps_lift|intros id].
  apply keeps_call_trackMessage.
Qed.

(** *** One run of the effect *)

Lemma run_effect_spec (s : Sys W) :
  timers s = [] ->
  armed hook (run_effect hook s) (next_timer s) (clock s + period)%N
  /\ requests (run_effect hook s)
     = requests s ++ (if (length (messages hook (client s)) =? 0)%nat
                      then [clock s] else [])
  /\ clock (run_effect hook s) = clock s
  /\ client (run_effect hook s) = client s
  /\ trackCalls (run_effect hook s) = trackCalls s
  /\ console_log (run_effect hook s) = console_log s
  /\ next_timer (run_effect hook s) = S (next_timer s).
Proof.
  intros Hts. unfold run_effect, armed, deps_of.
  destruct (length (messages hook (client s)) =? 0)%nat; simpl;
    rewrite Hts, ?app_nil_r; unfold period; repeat split; lia.
Qed.

Lemma clearInterval_single (s : Sys W) (id : nat) (t : N) :
  timers s = [(id, t)] -> timers (clearInterval id s) = [].
Proof.
  intros Hts. unfold clearInterval. simpl. rewrite Hts.
  rewrite filter_cons_False by (simpl; intros Hne; exact (Hne eq_refl)).
  apply filter_nil.
Qed.

(** A render of a mounted component leaves it armed: with the same timer
    when no dependency changed, and otherwise with a fresh timer that
    first fires one period from now, after an immediate fetch exactly when
    no message is tracked. *)
Lemma rerender_mounted (s : Sys W) (id : nat) (t : N) (d : nat * nat) :
  effect s = Some (id, d) ->
  timers s = [(id, t)] ->
  (clock s < t <= clock s + period)%N ->
  (d = deps_of hook s -> rerender hook s = s)
  /\ (d <> deps_of hook s ->
      armed hook (rerender hook s) (next_timer s) (clock s + period)%N
      /\ requests (rerender hook s)
         = requests s ++ (if (length (messages hook (client s)) =? 0)%nat
                          then [clock s] else []))
  /\ clock (rerender hook s) = clock s
  /\ client (rerender hook s) = client s
  /\ trackCalls (rerender hook s) = trackCalls s
  /\ console_log (rerender hook s) = console_log s
  /\ exists id' t', armed hook (rerender hook s) id' t'.
Proof.
  intros He Hts Hclk. unfold rerender. rewrite He.
  destruct (decide (d = deps_of hook s)) as [Heq|Hne].
  - split; [reflexivity|]. split; [contradiction|].
    repeat split. exists id, t. unfold armed. subst d. auto.
  - pose proof (clearInterval_single s id t Hts) as Hclr.
    destruct (run_effect_spec (clearInterval id s) Hclr)
      as (Harm & Hreq & Hc & Hw & Htc & Hlog & Hnt).
    split; [contradiction|].
    split; [intros _; split; [exact Harm|exact Hreq]|].
    repeat split; try assumption. eauto.
Qed.

Lemma rerender_idle (s : Sys W) : effect s = None -> rerender hook s = s.
Proof. intros He. unfold rerender. rewrite He. reflexivity. Qed.

(** *** Ticks *)

Lemma fire_times_elem (t : N) (n : nat) (x : N) :
  x ∈ fire_times t n <-> exists k, (k < n)%nat /\ x = (t + N.of_nat k * period)%N.
Proof.
  revert t. induction n as [|n IH]; intros t; simpl.
  - split; [intros Hin; inversion Hin|intros (k & Hk & _); lia].
  - rewrite elem_of_cons, IH. split.
    + intros [->|(k & Hk & ->)].
      * exists 0%nat. split; lia.
      * exists (S k). split; lia.
    + intros (k & Hk & ->). destruct k as [|k].
      * left. lia.
      * right. exists k. split; lia.
Qed.

(** With a single live timer, running the timers up to [limit] fires it
    at [t], [t + period], ... for as long as the time is not after
    [limit]; each firing issues one fetch and nothing else changes. *)
Lemma run_timers_single (limit : N) (fuel : nat) :
  forall (s : Sys W) (id : nat) (t : N),
    timers s = [(id, t)] ->
    (limit < t + N.of_nat fuel * period)%N ->
    exists n,
      timers (run_timers fuel limit s) = [(id, (t + N.of_nat n * period)%N)]
      /\ (limit < t + N.of_nat n * period)%N
      /\ (forall k, (k < n)%nat -> (t + N.of_nat k * period <= limit)%N)
      /\ requests (run_timers fuel limit s) = requests s ++ fire_times t n
      /\ pending (run_timers fuel limit s)
         = pending s ++ seq (length (requests s)) n
      /\ console_log (run_timers fuel limit s) = console_log s
      /\ trackCalls (run_timers fuel limit s) = trackCalls s
      /\ client (run_timers fuel limit s) = client s
      /\ next_timer (run_timers fuel limit s) = next_timer s
      /\ effect (run_timers fuel limit s) = effect s.
Proof.
  induction fuel as [|fuel IH]; intros s id t Hts Hfuel.
  - exists 0%nat. simpl. rewrite Hts, !app_nil_r, N.add_0_r.
    simpl in Hfuel. repeat split; lia.
  - simpl. rewrite Hts. simpl.
    destruct (N.leb_spec t limit) as [Hle|Hgt].
    + match goal with |- context [run_timers fuel limit ?s1] =>
        destruct (IH s1 id (t + period)%N) as
          (n & Ht & Hlim & Hk & Hreq & Hpen & Hlog & Htc & Hw & Hnt & He)
      end.
      { simpl. destruct (decide (id = id)); [reflexivity|contradiction]. }
      { lia. }
      exists (S n). simpl in Hreq, Hpen, Hlog, Htc, Hw, Hnt, He.
      rewrite Ht, Hreq, Hpen, Hlog, Htc, Hw, Hnt, He.
      rewrite <- !app_assoc, length_app. simpl.
      replace (length (requests s) + 1)%nat with (S (length (requests s))) by lia.
      repeat split; try lia.
      * f_equal. f_equal. lia.
      * intros k Hlt. destruct k as [|k]; [lia|].
        specialize (Hk k ltac:(lia)). lia.
    + exists 0%nat. rewrite Hts, !app_nil_r, N.add_0_r.
      repeat split; lia.
Qed.

Lemma elapse_single (s : Sys W) (id : nat) (t dt : N) :
  timers s = [(id, t)] ->
  (clock s <= t)%N ->
  exists n,
    timers (elapse dt s) = [(id, (t + N.of_nat n * period)%N)]
    /\ clock (elapse dt s) = (clock s + dt)%N
    /\ (clock s + dt < t + N.of_nat n * period)%N
    /\ (forall k, (k < n)%nat <-> (t + N.of_nat k * period <= clock s + dt)%N)
    /\ requests (elapse dt s) = requests s ++ fire_times t n
    /\ pending (elapse dt s) = pending s ++ seq (length (requests s)) n
    /\ console_log (elapse dt s) = console_log s
    /\ trackCalls (elapse dt s) = trackCalls s
    /\ client (elapse dt s) = client s
    /\ next_timer (elapse dt s) = next_timer s
    /\ effect (elapse dt s) = effect s.
Proof.
  intros Hts Hclk. unfold elapse. rewrite Hts. simpl length.
  rewrite Nat.mul_1_r.
  destruct (run_timers_single (clock s + dt) (S (N.to_nat (dt / period))) s id t Hts)
    as (n & Ht & Hlim & Hk & Hrest).
  { pose proof (N.mul_succ_div_gt dt period ltac:(unfold period; lia)) as Hdiv.
    rewrite Nat2N.inj_succ, N2Nat.id. lia. }
  exists n. unfold with_clock.
  cbn [timers clock requests pending console_log trackCalls client
       next_timer effect].
  rewrite Ht. split; [reflexivity|]. split; [reflexivity|].
  split; [exact Hlim|]. split; [|exact Hrest].
  intros k. split; [apply Hk|].
  intros Hle. destruct (Nat.lt_ge_cases k n) as [Hlt|Hge]; [exact Hlt|].
  exfalso. assert (N.of_nat n <= N.of_nat k)%N by lia. unfold period in *. nia.
Qed.

Lemma elapse_idle (s : Sys W) (dt : N) :
  timers s = [] -> elapse dt s = with_clock (clock s + dt)%N s.
Proof.
  intros Hts. unfold elapse. rewrite Hts. simpl length.
  rewrite Nat.mul_0_r. reflexivity.
Qed.

(** *** Reachable states *)

Lemma rerender_trackCalls (s : Sys W) :
  trackCalls (rerender hook s) = trackCalls s
  /\ client (rerender hook s) = client s
  /\ clock (rerender hook s) = clock s.
Proof.
  unfold rerender. destruct (effect s) as [[id d]|]; [|auto].
  destruct (decide (d = deps_of hook s)); [auto|].
  unfold run_effect.
  destruct (length (messages hook (client (clearInterval id s))) =? 0)%nat;
    auto.
Qed.

Lemma armed_mounted (s : Sys W) (id : nat) (t : N) :
  armed hook s id t -> mounted s id t.
Proof. intros (He & Hts & Hclk). split; [eauto|auto]. Qed.

(** After the service's state changed in a mounted component, the
    re-render leaves it armed. *)
Lemma rerender_after_change (s s1 : Sys W) (id : nat) (t : N) :
  mounted s id t -> same_browser s s1 ->
  exists id' t', armed hook (rerender hook s1) id' t'.
Proof.
  intros ([d He] & Hts & Hclk) (Hc & _ & _ & Ht & _ & Hef).
  rewrite <- Hc in Hclk. rewrite <- Ht in Hts. rewrite <- Hef in He.
  apply (rerender_mounted s1 id t d He Hts Hclk).
Qed.

Lemma step_well_formed (ev : Event) (s : Sys W) :
  well_formed hook s -> well_formed hook (step hook ev s).
Proof.
  intros [[He Hts] | (id & t & Harm)].
  - (* not mounted *)
    destruct ev as [| | |dt|n o|w]; cbn [step].
    + rewrite He. right. exists (next_timer s), (clock s + period)%N.
      apply (run_effect_spec s Hts).
    + left. rewrite (rerender_idle s He). split; assumption.
    + rewrite He. left. split; assumption.
    + left. rewrite (elapse_idle s dt Hts). split; assumption.
    + destruct (decide (n ∈ pending s)); [|left; split; assumption].
      match goal with |- context [fetchRealMessages_resume hook o ?s0] =>
        destruct (keeps_resume o s0) as (_ & _ & _ & Ht & _ & Hef);
        simpl in Ht, Hef end.
      left. rewrite rerender_idle by congruence. split; congruence.
    + left. rewrite rerender_idle by exact He. split; assumption.
  - (* mounted *)
    pose proof Harm as (He & Hts & Hclk).
    destruct ev as [| | |dt|n o|w]; cbn [step].
    + rewrite He. right. eauto.
    + right. exists id, t.
      destruct (rerender_mounted s id t _ He Hts Hclk) as (Hsame & _).
      rewrite (Hsame eq_refl). exact Harm.
    + rewrite He. left. split; [reflexivity|].
      apply (clearInterval_single s id t Hts).
    + destruct (elapse_single s id t dt Hts ltac:(lia))
        as (n & Ht & Hc & Hlim & Hk & _ & _ & _ & _ & Hw & _ & Hef).
      right. exists id, (t + N.of_nat n * period)%N. unfold armed, deps_of.
      rewrite Ht, Hc, Hw, Hef. split; [exact He|]. split; [reflexivity|].
      split; [exact Hlim|].
      destruct n as [|n]; [lia|].
      pose proof (proj1 (Hk n) ltac:(lia)). lia.
    + destruct (decide (n ∈ pending s)); [|right; eauto].
      right.
      match goal with |- context [fetchRealMessages_resume hook o ?s0] =>
        apply (rerender_after_change s0 _ id t);
          [|apply keeps_resume] end.
      split; [simpl; eauto|]. split; assumption.
    + right. apply (rerender_after_change (with_client w s) _ id t);
        [|apply same_browser_refl].
      split; [simpl; eauto|]. split; assumption.
Qed.

Lemma run_well_formed (evs : list Event) (s : Sys W) :
  well_formed hook s -> well_formed hook (run hook evs s).
Proof.
  revert s. induction evs as [|ev evs IH]; intros s Hwf; [exact Hwf|].
  apply IH, step_well_formed, Hwf.
Qed.

(** Once unmounted, and until a new mount, no timer exists and no fetch
    is issued, whatever else happens. *)
Lemma run_idle (evs : list Event) (s : Sys W) :
  effect s = None -> timers s = [] -> Mount ∉ evs ->
  timers (run hook evs s) = [] /\ requests (run hook evs s) = requests s
  /\ effect (run hook evs s) = None.
Proof.
  revert s. induction evs as [|ev evs IH]; intros s He Hts Hno; [auto|].
  apply not_elem_of_cons in Hno as [Hev Hno].
  assert (Hstep : effect (step hook ev s) = None
                  /\ timers (step hook ev s) = []
                  /\ requests (step hook ev s) = requests s).
  { destruct ev as [| | |dt|n o|w]; cbn [step].
    - contradiction.
    - rewrite (rerender_idle s He). auto.
    - rewrite He. auto.
    - rewrite (elapse_idle s dt Hts). auto.
    - destruct (decide (n ∈ pending s)); [|auto].
      match goal with |- context [fetchRealMessages_resume hook o ?s0] =>
        destruct (keeps_resume o s0) as (_ & Hr & _ & Ht & _ & Hef);
        simpl in Hr, Ht, Hef end.
      rewrite rerender_idle by congruence. repeat split; congruence.
    - rewrite rerender_idle by exact He. auto. }
  destruct Hstep as (He' & Hts' & Hr').
  destruct (IH (step hook ev s) He' Hts' Hno) as (A & B & C).
  simpl. rewrite A, B, C, Hr'. auto.
Qed.

(** *** A failed poll and the tick after it *)

Lemma rerender_armed_eq (s : Sys W) (id : nat) :
  effect s = Some (id, deps_of hook s) -> rerender hook s = s.
Proof.
  intros He. unfold rerender. rewrite He.
  destruct (decide (deps_of hook s = deps_of hook s)); [reflexivity|contradiction].
Qed.


(** Letting the time run to the timer's due time fires it exactly once. *)
Lemma tick_once (s : Sys W) (id : nat) (t : N) :
  timers s = [(id, t)] -> (clock s < t)%N ->
  requests (step hook (Elapse (t - clock s)) s) = requests s ++ [t]
  /\ pending (step hook (Elapse (t - clock s)) s)
     = pending s ++ [length (requests s)]
  /\ trackCalls (step hook (Elapse (t - clock s)) s) = trackCalls s
  /\ client (step hook (Elapse (t - clock s)) s) = client s.
Proof.
  intros Hts Hclk. cbn [step].
  destruct (elapse_single s id t (t - clock s) Hts ltac:(lia))
    as (n & _ & _ & _ & Hk & Hreq & Hpen & _ & Htc & Hw & _).
  assert (n = 1%nat) as ->.
  { pose proof (proj2 (Hk 0%nat) ltac:(lia)).
    destruct (Nat.lt_ge_cases 1 n) as [Hlt|Hge]; [|lia].
    pose proof (proj1 (Hk 1%nat) Hlt). unfold period in *. lia. }
  rewrite Hreq, Hpen, Htc, Hw. auto.
Qed.

(** A settled request with a well-formed body registers each id in order. *)
Lemma settle_success (s : Sys W) (n : nat) (ids : list string) :
  n ∈ pending s ->
  (forall i w, (trackMessage hook (JStr i) w).1 = Normal tt) ->
  trackCalls (step hook (Settle n (ok_response (body_of ids))) s)
  = trackCalls s ++ map JStr ids.
Proof.
  intros Hin Hret. cbn [step].
  destruct (decide (n ∈ pending s)); [|contradiction].
  destruct (rerender_trackCalls
              (fetchRealMessages_resume hook (ok_response (body_of ids))
                 (with_pending (filter (fun m => m ≠ n) (pending s)) s)).2)
    as (-> & _).
  rewrite resume_body_of.
  destruct (track_each_returns hook ids
              (with_pending (filter (fun m => m ≠ n) (pending s)) s) Hret)
    as (s' & Hrun & Hc & _).
  rewrite (try_catch_normal _ _ _ _ _ Hrun). exact Hc.
Qed.

End ScheduleFacts.

(** ** The concrete service *)

Lemma demo_register_returns (i : string) (w : Demo.ConnState * list TrackedMessage) :
  (trackMessage Demo.hook (JStr i) w).1 = Normal tt.
Proof.
  destruct w as [c l]. simpl. destruct (Demo.is_tracked i l); reflexivity.
Qed.



(** ** The claims about the poller and the list *)







(** X19. What the effect does as written. Each activation -- at mount,
    and again at a re-render after the tracked-message count or [trackMessage]
    changed -- issues one immediate fetch if and only if no message is
    tracked, and starts a timer whose first firing is 15 seconds later; a
    re-activation first cancels the previous timer, so the 15-second count
    restarts there, and a change that leaves both dependencies as they
    were does not touch the timer. While mounted, the timer issues a fetch
    at its due time and every 15 seconds after it, whatever the count, and
    it is the only live timer. Unmounting cancels it: afterwards no timer
    is left and no fetch is issued. *)
Theorem poller_schedule {W CS : Type} (hook : WsHook W CS) :
  (forall t0 w,
     requests (step hook Mount (initial t0 w))
     = (if (length (messages hook w) =? 0)%nat then [t0] else [])
     /\ armed hook (step hook Mount (initial t0 w)) 0 (t0 + period)%N)
  /\ (forall (s : Sys W) id t w,
        armed hook s id t ->
        (deps_of hook (with_client w s) = deps_of hook s ->
         timers (step hook (Push w) s) = timers s
         /\ requests (step hook (Push w) s) = requests s)
        /\ (deps_of hook (with_client w s) <> deps_of hook s ->
            timers (step hook (Push w) s)
            = [(next_timer s, (clock s + period)%N)]
            /\ requests (step hook (Push w) s)
               = requests s ++ (if (length (messages hook w) =? 0)%nat
                                then [clock s] else [])))
  /\ (forall (s : Sys W) id t dt,
        mounted s id t ->
        exists n,
          requests (step hook (Elapse dt) s) = requests s ++ fire_times t n
          /\ (forall k, (k < n)%nat
                        <-> (t + N.of_nat k * period <= clock s + dt)%N)
          /\ timers (step hook (Elapse dt) s)
             = [(id, (t + N.of_nat n * period)%N)])
  /\ (forall (s : Sys W) (evs : list Event),
        well_formed hook s -> Mount ∉ evs ->
        timers (step hook Unmount s) = []
        /\ timers (run hook evs (step hook Unmount s)) = []
        /\ requests (run hook evs (step hook Unmount s)) = requests s)
  /\ (forall t0 w (evs : list Event),
        well_formed hook (run hook evs (initial t0 w))).
Proof.
  split; [|split; [|split; [|split]]].
  - intros t0 w. cbn [step initial effect].
    destruct (run_effect_spec hook (initial t0 w) eq_refl) as (Harm & Hreq & _).
    split; [exact Hreq|exact Harm].
  - intros s id t w (He & Hts & Hclk). cbn [step].
    destruct (rerender_mounted hook (with_client w s) id t (deps_of hook s)
                He Hts Hclk) as (Hsame & Hchg & _).
    split.
    + intros Heq. rewrite (Hsame (eq_sym Heq)). auto.
    + intros Hne. destruct (Hchg (fun Heq => Hne (eq_sym Heq)))
        as ((_ & Hts' & _) & Hreq).
      split; [exact Hts'|exact Hreq].
  - intros s id t dt (_ & Hts & Hclk). cbn [step].
    destruct (elapse_single s id t dt Hts ltac:(lia))
      as (n & Ht & _ & _ & Hk & Hreq & _).
    exists n. auto.
  - intros s evs Hwf Hno.
    assert (Hidle : effect (step hook Unmount s) = None
                    /\ timers (step hook Unmount s) = []
                    /\ requests (step hook Unmount s) = requests s).
    { cbn [step]. destruct Hwf as [[He Hts] | (id & t & He & Hts & _)].
      - rewrite He. auto.
      - rewrite He. split; [reflexivity|].
        split; [apply (clearInterval_single s id t Hts)|reflexivity]. }
    destruct Hidle as (He & Hts & Hreq).
    destruct (run_idle hook evs _ He Hts Hno) as (A & B & _).
    rewrite A, B. auto.
  - intros t0 w evs. apply run_well_formed. left. split; reflexivity.
Qed.

Lemma poller_schedule_witness :
  exists n,
    requests (step Demo.hook (Elapse 40000)
                (step Demo.hook Mount
                   (initial 0 (Demo.CsConnecting,
                               [Demo.mk_message "a" "CREATED" JUndefined]))))
    = [] ++ fire_times 15000 n
    /\ (forall k, (k < n)%nat <-> (15000 + N.of_nat k * period <= 0 + 40000)%N)
    /\ timers (step Demo.hook (Elapse 40000)
                 (step Demo.hook Mount
                    (initial 0 (Demo.CsConnecting,
                                [Demo.mk_message "a" "CREATED" JUndefined]))))
       = [(0%nat, (15000 + N.of_nat n * period)%N)].
Proof.
  destruct (poller_schedule Demo.hook) as (_ & _ & H & _).
  apply (H (step Demo.hook Mount
              (initial 0 (Demo.CsConnecting,
                          [Demo.mk_message "a" "CREATED" JUndefined])))
           0%nat 15000%N 40000%N).
  unfold mounted. simpl. split; [eauto|]. split; [reflexivity|].
  unfold period. lia.
Defined.

(** The poller does not fire every 15 seconds regardless of the
    tracked-message count. Mounted at time 0 with no
    message, it fetches at 0; a message arriving at 10 s changes the count,
    the effect re-runs and its new timer is due at 25 s; at 15 s the view
    is still mounted and no fetch has been issued since the first. *)
Lemma count_change_restarts_timer :
  ~ (forall (w : Demo.ConnState * list TrackedMessage)
            (evs : list Event) (k : nat),
       Mount ∉ evs -> Unmount ∉ evs -> (1 <= k)%nat ->
       (N.of_nat k * period
        <= clock (run Demo.hook evs (step Demo.hook Mount (initial 0 w))))%N ->
       (N.of_nat k * period)%N
       ∈ requests (run Demo.hook evs (step Demo.hook Mount (initial 0 w)))).
Proof.
  intros H.
  specialize (H (Demo.CsOpen, [])
                [Elapse 10000;
                 Push (Demo.CsOpen, [Demo.mk_message "m1" "CREATED" JUndefined]);
                 Elapse 5000] 1%nat).
  assert (Hin : (N.of_nat 1 * period)%N ∈ [0%N]).
  { apply H.
    - intros Hm. repeat (apply elem_of_cons in Hm as [Hm|Hm]; [discriminate|]).
      inversion Hm.
    - intros Hm. repeat (apply elem_of_cons in Hm as [Hm|Hm]; [discriminate|]).
      inversion Hm.
    - lia.
    - vm_compute. discriminate. }
  apply list_elem_of_singleton in Hin. discriminate Hin.
Qed.

Example count_change_trace :
  let s := run Demo.hook
             [Elapse 10000;
              Push (Demo.CsOpen, [Demo.mk_message "m1" "CREATED" JUndefined]);
              Elapse 5000]
             (step Demo.hook Mount (initial 0 (Demo.CsOpen, []))) in
  clock s = 15000%N /\ requests s = [0%N] /\ timers s = [(1%nat, 25000%N)].
Proof. vm_compute. auto. Qed.

(** ** Further properties of the label *)

(** What a row's label computation does to the console does not depend on
    what the console already holds. *)
Lemma message_type_label_frame (env : LabelEnv) (m : TrackedMessage)
    (log : list LogEntry) :
  message_type_label env m log
  = ((message_type_label env m []).1, log ++ (message_type_label env m []).2).
Proof.
  unfold message_type_label, label_try_body, read_cached_label, parse_metadata,
    bind, lift, try_catch, gets, ret, set_messageType, console_error, modify.
  repeat case_match; simplify_eq/=; rewrite ?app_nil_r; reflexivity.
Qed.

Lemma message_type_label_entries (env : LabelEnv) (m : TrackedMessage) :
  (length (message_type_label env m []).2 <= 1)%nat.
Proof.
  unfold message_type_label, label_try_body, read_cached_label, parse_metadata,
    bind, lift, try_catch, gets, ret, set_messageType, console_error, modify.
  repeat case_match; simplify_eq/=; lia.
Qed.

(** X1. Computing a row's label only ever appends to the console, at most
    one entry, and both the label and the appended entries are the same
    whatever the console held before. *)
Theorem label_console_append (env : LabelEnv) (m : TrackedMessage)
    (log : list LogEntry) :
  exists v entries,
    message_type_label env m log = (Normal v, log ++ entries)
    /\ (length entries <= 1)%nat
    /\ forall log2, message_type_label env m log2 = (Normal v, log2 ++ entries).
Proof.
  destruct (message_type_label_normal env m []) as (v & entries & Hnil).
  exists v, entries. pose proof (message_type_label_entries env m) as Hlen.
  rewrite Hnil in Hlen. simpl in Hlen.
  split; [|split; [exact Hlen|intros log2]];
    rewrite message_type_label_frame, Hnil; reflexivity.
Qed.

(** X2. When the payload's [messageType] is truthy the cache plays no
    part: two environments whose name lookup agrees on that value give the
    same label and console, whatever their window, storage and parser are
    (a storage that would throw included). *)
Theorem label_payload_ignores_cache (env1 env2 : LabelEnv) (m : TrackedMessage)
    (log : list LogEntry) (mt : JsValue) :
  js_get_opt (data m) "messageType" = Normal mt ->
  truthy mt = true ->
  getMessageTypeName env1 mt = getMessageTypeName env2 mt ->
  message_type_label env1 m log = message_type_label env2 m log.
Proof.
  intros Hopt Ht Hname.
  pose proof (js_get_opt_truthy _ _ _ Hopt Ht) as Hget.
  unfold message_type_label, label_try_body, bind, lift, try_catch.
  rewrite Hopt, Ht, Hget, Hname. reflexivity.
Qed.

Lemma label_payload_ignores_cache_witness :
  message_type_label (Demo.browser [("message_m1", Demo.metadata_B)])
    (Demo.mk_message "m1" "INFLIGHT" (JObj [("messageType", JStr "A")])) []
  = message_type_label
      {| getMessageTypeName := getMessageTypeName (Demo.browser []);
         window_defined := true;
         localStorage_getItem := fun _ => Throw SecurityError;
         JSON_parse := fun _ => Throw SyntaxError |}
      (Demo.mk_message "m1" "INFLIGHT" (JObj [("messageType", JStr "A")])) [].
Proof.
  apply (label_payload_ignores_cache _ _ _ [] (JStr "A")); reflexivity.
Defined.

(** X3. With a falsy payload type the row falls back to the default label
    without logging anything in each of these cases: there is no window
    (storage is then not read at all); storage has no entry for the row;
    the entry is the empty string (it is then not parsed); or the entry
    parses to a value whose [messageType] is missing or falsy. *)
Theorem label_silent_fallback (env : LabelEnv) (m : TrackedMessage)
    (log : list LogEntry) (mt : JsValue) :
  js_get_opt (data m) "messageType" = Normal mt ->
  truthy mt = false ->
  window_defined env = false
  \/ (window_defined env = true
      /\ (localStorage_getItem env ("message_" +:+ messageId m) = Normal None
          \/ localStorage_getItem env ("message_" +:+ messageId m)
             = Normal (Some "")
          \/ exists s md t,
               localStorage_getItem env ("message_" +:+ messageId m)
               = Normal (Some s)
               /\ JSON_parse env s = Normal md
               /\ js_get md "messageType" = Normal t
               /\ truthy t = false)) ->
  message_type_label env m log = (Normal default_label, log).
Proof.
  intros Hopt Ht Hcase.
  unfold message_type_label, label_try_body, read_cached_label, bind, lift,
    try_catch.
  rewrite Hopt, Ht.
  destruct Hcase as [Hw | (Hw & [Hg | [Hg | (s & md & t & Hg & Hp & Hm & Hf)]])];
    rewrite Hw; try rewrite Hg; try reflexivity.
  destruct (String.eqb s ""); [reflexivity|].
  unfold parse_metadata, bind, lift, try_catch. simpl.
  rewrite Hp, Hm, Hf. reflexivity.
Qed.

Lemma label_silent_fallback_witness :
  message_type_label
    (Demo.browser [("message_m1",
                    "{" +:+ Demo.dq +:+ "note" +:+ Demo.dq +:+ ":7}")])
    (Demo.mk_message "m1" "CREATED" JUndefined) []
  = (Normal default_label, []).
Proof.
  apply (label_silent_fallback _ _ [] JUndefined); [reflexivity|reflexivity|].
  right. split; [reflexivity|]. right. right.
  exists ("{" +:+ Demo.dq +:+ "note" +:+ Demo.dq +:+ ":7}"),
         (JObj [("note", JNum 7)]), JUndefined.
  repeat split; reflexivity.
Defined.

(** X4. A row reads storage under its own key only, ["message_"] followed
    by its id, and the keys of different rows differ: two environments
    that agree on that single key (and on the window, the parser and the
    name lookup) give the row the same label, whatever else they store. *)
Theorem label_reads_own_key (env1 env2 : LabelEnv) (m : TrackedMessage)
    (log : list LogEntry) :
  (forall v, getMessageTypeName env1 v = getMessageTypeName env2 v) ->
  window_defined env1 = window_defined env2 ->
  (forall s, JSON_parse env1 s = JSON_parse env2 s) ->
  localStorage_getItem env1 ("message_" +:+ messageId m)
  = localStorage_getItem env2 ("message_" +:+ messageId m) ->
  message_type_label env1 m log = message_type_label env2 m log
  /\ forall other, "message_" +:+ other = "message_" +:+ messageId m ->
                   other = messageId m.
Proof.
  intros Hn Hw Hp Hkey. split.
  - unfold message_type_label, label_try_body, read_cached_label,
      parse_metadata, bind, lift, try_catch.
    rewrite Hw, Hkey.
    destruct (js_get_opt (data m) "messageType") as [mt|e]; [|reflexivity].
    destruct (truthy mt).
    + destruct (js_get (data m) "messageType") as [arg|e]; [|reflexivity].
      rewrite Hn. reflexivity.
    + destruct (window_defined env2); [|reflexivity].
      destruct (localStorage_getItem env2 _) as [[s|]|e]; try reflexivity.
      destruct (negb (String.eqb s "")); [|reflexivity].
      rewrite Hp. reflexivity.
  - intros other Heq. cbv [String.append] in Heq. congruence.
Qed.

Lemma label_reads_own_key_witness :
  message_type_label
    (Demo.browser [("message_m1", Demo.metadata_B); ("message_m2", "null")])
    (Demo.mk_message "m1" "INFLIGHT" JUndefined) []
  = message_type_label
      (Demo.browser [("message_m1", Demo.metadata_B)])
      (Demo.mk_message "m1" "INFLIGHT" JUndefined) [].
Proof.
  apply (label_reads_own_key
           (Demo.browser [("message_m1", Demo.metadata_B); ("message_m2", "null")])
           (Demo.browser [("message_m1", Demo.metadata_B)])
           (Demo.mk_message "m1" "INFLIGHT" JUndefined) []);
    reflexivity.
Defined.

(** ** Further properties of the rendered list *)

Lemma render_row_frame (env : LabelEnv) (expanded : gmap string bool)
    (m : TrackedMessage) (log : list LogEntry) :
  exists row entries,
    render_row env expanded m log = (Normal row, log ++ entries)
    /\ (length entries <= 1)%nat
    /\ row_for expanded m row.
Proof.
  destruct (message_type_label_normal env m []) as (v & entries & Hnil).
  pose proof (message_type_label_entries env m) as Hlen.
  rewrite Hnil in Hlen. simpl in Hlen.
  unfold render_row, bind. rewrite message_type_label_frame, Hnil. simpl.
  unfold ret. eexists _, entries. split; [reflexivity|].
  split; [exact Hlen|]. repeat split.
Qed.

Lemma render_rows_frame (env : LabelEnv) (expanded : gmap string bool)
    (msgs : list TrackedMessage) (log : list LogEntry) :
  exists rows entries,
    map_m (render_row env expanded) msgs log = (Normal rows, log ++ entries)
    /\ (length entries <= length msgs)%nat
    /\ Forall2 (row_for expanded) msgs rows.
Proof.
  revert log. induction msgs as [|m msgs IH]; intros log; simpl.
  - exists [], []. rewrite app_nil_r. split; [reflexivity|].
    split; [simpl; lia|constructor].
  - destruct (render_row_frame env expanded m log) as (row & e1 & Hr & Hl1 & Hrow).
    destruct (IH (log ++ e1)) as (rows & e2 & Hrs & Hl2 & Hrows).
    exists (row :: rows), (e1 ++ e2). unfold bind. rewrite Hr, Hrs. unfold ret.
    rewrite app_assoc. split; [reflexivity|].
    split; [rewrite length_app; simpl; lia|constructor; assumption].
Qed.

Lemma render_row_agree (env : LabelEnv) (e1 e2 : gmap string bool)
    (m : TrackedMessage) :
  isExpanded e1 (messageId m) = isExpanded e2 (messageId m) ->
  render_row env e1 m = render_row env e2 m.
Proof. intros Heq. unfold render_row. rewrite Heq. reflexivity. Qed.

Lemma render_rows_agree (env : LabelEnv) (e1 e2 : gmap string bool)
    (msgs : list TrackedMessage) :
  Forall (fun m => isExpanded e1 (messageId m) = isExpanded e2 (messageId m)) msgs ->
  map_m (render_row env e1) msgs = map_m (render_row env e2) msgs.
Proof.
  induction 1 as [|m msgs Hm _ IH]; simpl; [reflexivity|].
  rewrite (render_row_agree env e1 e2 m Hm), IH. reflexivity.
Qed.

Lemma rows_details (expanded : gmap string bool) (msgs : list TrackedMessage)
    (rows : list Row) :
  Forall2 (row_for expanded) msgs rows ->
  omap row_detail rows
  = filter (fun id => isExpanded expanded id = true) (map messageId msgs)
  /\ Forall (fun r => row_chevron r = ChevronUp <-> is_Some (row_detail r)) rows.
Proof.
  induction 1 as [|m r msgs rows (Hk & _ & Hc & Hd) _ [IHd IHc]].
  - split; [reflexivity|constructor].
  - split.
    + change (omap row_detail (r :: rows))
        with (match row_detail r with
              | Some y => y :: omap row_detail rows
              | None => omap row_detail rows
              end).
      cbn [map]. rewrite Hd, IHd. destruct (isExpanded expanded (messageId m)) eqn:He.
      * rewrite filter_cons_True by exact He. reflexivity.
      * rewrite filter_cons_False by (rewrite He; discriminate). reflexivity.
    + constructor; [|exact IHc]. rewrite Hc, Hd.
      destruct (isExpanded expanded (messageId m)); split;
        try discriminate; eauto.
      intros [x Hx]. discriminate Hx.
Qed.

Section ListFacts.
Context {W CS : Type} `{EqDecision CS}.
Variables (env : LabelEnv) (hook : WsHook W CS).

(** X5. Building the view only ever appends to the console, at most one
    entry per tracked message, and never removes or changes an earlier
    entry; the component function itself returns its rows normally (a
    label that is not a string is handed on as it is). *)
Theorem render_console_bounded (w : W) (expanded : gmap string bool)
    (log : list LogEntry) :
  exists v entries,
    render env hook w expanded log = (Normal v, log ++ entries)
    /\ (length entries <= length (messages hook w))%nat.
Proof.
  unfold render. rewrite length_map.
  destruct (length (messages hook w) =? 0)%nat.
  - exists EmptyState, []. rewrite app_nil_r. split; [reflexivity|simpl; lia].
  - destruct (render_rows_frame env expanded (messages hook w) log)
      as (rows & entries & Hr & Hl & _).
    eexists _, entries. unfold bind. rewrite Hr. unfold ret.
    split; [reflexivity|exact Hl].
Qed.

(** X6. The view depends on the expansion record only through what
    [expanded[id]] reads for the tracked ids: two records that read the
    same for every tracked message render the same view, so entries of
    ids that are no longer tracked never show, and for an id that does not
    name a member of [Object.prototype] a missing entry renders like
    [false]. *)
Theorem render_depends_on_tracked_flags (w : W) (e1 e2 : gmap string bool)
    (log : list LogEntry) :
  Forall (fun m => isExpanded e1 (messageId m) = isExpanded e2 (messageId m))
         (messages hook w) ->
  render env hook w e1 log = render env hook w e2 log.
Proof.
  intros Hagree. unfold render.
  rewrite (render_rows_agree env e1 e2 _ Hagree). reflexivity.
Qed.

(** X7. The detail sub-views that are mounted are exactly those of the
    tracked messages for which [expanded[id]] reads truthy -- an own
    [true] entry, or no own entry for an id that names a member of
    [Object.prototype] -- in the service's order and each with its own
    row's id; and a row shows the up chevron exactly when its detail
    sub-view is mounted. *)
Theorem details_of_expanded_rows (w : W) (expanded : gmap string bool)
    (log : list LogEntry) :
  exists v log',
    render env hook w expanded log = (Normal v, log')
    /\ omap row_detail (rows_of v)
       = filter (fun id => isExpanded expanded id = true)
                (map messageId (messages hook w))
    /\ Forall (fun r => row_chevron r = ChevronUp <-> is_Some (row_detail r))
              (rows_of v).
Proof.
  unfold render. rewrite length_map.
  destruct (Nat.eqb_spec (length (messages hook w)) 0) as [Hz|Hnz].
  - apply nil_length_inv in Hz. exists EmptyState, log. rewrite Hz.
    split; [reflexivity|]. split; [reflexivity|constructor].
  - destruct (render_rows_normal env expanded (messages hook w) log)
      as (rows & log' & Hr & Hall).
    destruct (rows_details expanded (messages hook w) rows Hall) as [Hd Hc].
    eexists _, log'. unfold bind. rewrite Hr. unfold ret.
    split; [reflexivity|]. split; [exact Hd|exact Hc].
Qed.

End ListFacts.

Lemma render_depends_on_tracked_flags_witness :
  render (Demo.browser []) Demo.hook
    (Demo.CsOpen, [Demo.mk_message "m1" "CREATED" JUndefined]) ∅ []
  = render (Demo.browser []) Demo.hook
      (Demo.CsOpen, [Demo.mk_message "m1" "CREATED" JUndefined])
      {["m1" := false; "gone" := true]} [].
Proof.
  apply (render_depends_on_tracked_flags (Demo.browser []) Demo.hook
           (Demo.CsOpen, [Demo.mk_message "m1" "CREATED" JUndefined])
           ∅ {["m1" := false; "gone" := true]} []).
  repeat constructor.
Defined.

(** ** Further properties of the expansion state *)

Lemma click_toggles (el : Element) (m : gmap string bool) :
  click el m = toggleExpanded (target_id el) m.
Proof. destruct el; reflexivity. Qed.

Lemma isExpanded_toggle_other (id id' : string) (m : gmap string bool) :
  id' <> id -> isExpanded (toggleExpanded id m) id' = isExpanded m id'.
Proof.
  intros Hne. unfold isExpanded. rewrite lookup_toggle_other by exact Hne.
  reflexivity.
Qed.

(** X8. Toggles of two different rows commute: the record after both does
    not depend on which row was clicked first. *)
Theorem toggle_commute (a b : string) (m : gmap string bool) :
  a <> b ->
  toggleExpanded a (toggleExpanded b m) = toggleExpanded b (toggleExpanded a m).
Proof.
  intros Hne. unfold toggleExpanded at 1 3.
  rewrite (isExpanded_toggle_other b a m Hne).
  rewrite (isExpanded_toggle_other a b m) by congruence.
  unfold toggleExpanded. apply insert_insert_ne. congruence.
Qed.

Lemma toggle_commute_witness :
  toggleExpanded "m1" (toggleExpanded "m2" ∅)
  = toggleExpanded "m2" (toggleExpanded "m1" ∅).
Proof. apply (toggle_commute "m1" "m2" ∅). discriminate. Defined.

(** X9. After any sequence of clicks on row headers and toggle buttons, a
    row is expanded exactly when its flag before, flipped once per click
    that hit one of its two elements, says so: only the parity of the
    number of its own clicks matters, and clicks on other rows never do. *)
Theorem clicks_parity (targets : list Element) (id : string)
    (m : gmap string bool) :
  isExpanded (click_all targets m) id
  = xorb (isExpanded m id) (Nat.odd (clicks_on id targets)).
Proof.
  revert m. induction targets as [|el targets IH]; intros m.
  - simpl. rewrite xorb_false_r. reflexivity.
  - unfold click_all. simpl foldl. fold (click_all targets (click el m)).
    rewrite IH, click_toggles. unfold clicks_on. rewrite filter_cons.
    destruct (decide (target_id el = id)) as [->|Hne].
    + rewrite isExpanded_toggle_same. simpl length.
      rewrite Nat.odd_succ, <- Nat.negb_odd.
      destruct (isExpanded m id), (Nat.odd _); reflexivity.
    + rewrite isExpanded_toggle_other by congruence. reflexivity.
Qed.

(** ** The shortened id *)

Lemma substring_0_length (n : nat) (s : string) :
  String.length (String.substring 0 n s) = Nat.min n (String.length s).
Proof.
  revert s. induction n as [|n IH]; intros s; destruct s as [|c s]; simpl;
    try reflexivity.
  rewrite IH. reflexivity.
Qed.

Lemma substring_0_whole (n : nat) (s : string) :
  (String.length s <= n)%nat -> String.substring 0 n s = s.
Proof.
  revert s. induction n as [|n IH]; intros s Hlen; destruct s as [|c s];
    simpl in *; try reflexivity; try lia.
  rewrite IH by lia. reflexivity.
Qed.

Lemma substring_0_prefix (p rest : string) :
  String.substring 0 (String.length p) (p +:+ rest) = p.
Proof.
  induction p as [|c p IH].
  - destruct rest; reflexivity.
  - change (String c (String.substring 0 (String.length p) (p +:+ rest))
            = String c p).
    rewrite IH. reflexivity.
Qed.

Lemma string_length_app (a b : string) :
  String.length (a +:+ b) = (String.length a + String.length b)%nat.
Proof.
  induction a as [|c a IH]; [reflexivity|].
  change (S (String.length (a +:+ b))
          = S (String.length a + String.length b)).
  rewrite IH. reflexivity.
Qed.

(** X10. The id shown in a row is the first eight characters of the
    message id followed by three dots: at most eleven characters; the dots
    are appended even when the id has eight characters or fewer and
    nothing was cut; and ids that agree on their first eight characters
    are shown alike. *)
Theorem short_id_shape (id : string) :
  String.length (short_id id) = (Nat.min 8 (String.length id) + 3)%nat
  /\ ((String.length id <= 8)%nat -> short_id id = id +:+ "...")
  /\ (String.length id = 8%nat ->
      forall a b,
        short_id (id +:+ a) = id +:+ "..."
        /\ short_id (id +:+ a) = short_id (id +:+ b)).
Proof.
  unfold short_id. split; [|split].
  - rewrite string_length_app, substring_0_length. reflexivity.
  - intros Hlen. rewrite substring_0_whole by exact Hlen. reflexivity.
  - intros Hp a b. rewrite <- Hp, !substring_0_prefix. split; reflexivity.
Qed.

Lemma short_id_shape_witness :
  short_id "0xab" = "0xab..."
  /\ short_id ("0x12ab34" +:+ "cd56") = short_id ("0x12ab34" +:+ "ffff").
Proof.
  split.
  - destruct (short_id_shape "0xab") as (_ & H & _).
    apply H. cbv. repeat constructor.
  - destruct (short_id_shape "0x12ab34") as (_ & _ & H).
    apply (H eq_refl "cd56" "ffff").
Defined.

(** ** The status icon's glyph and colour *)

(** X11. The check-mark glyph is shared by COMPLETED and DELIVERED and by
    no other status, so the glyph alone does not tell them apart; the
    colour class does: two statuses whose icons have the same class have
    the same icon. *)
Theorem status_glyph_and_colour (a b : string) :
  (glyph (getStatusIcon a) = CheckCircle <-> a = "COMPLETED" \/ a = "DELIVERED")
  /\ (className (getStatusIcon a) = className (getStatusIcon b) ->
      getStatusIcon a = getStatusIcon b).
Proof.
  unfold getStatusIcon. split.
  - destruct (String.eqb_spec a "COMPLETED") as [->|H1]; [intuition|].
    destruct (String.eqb_spec a "FAILED") as [->|H2];
      [split; [discriminate|intros [?|?]; discriminate]|].
    destruct (String.eqb_spec a "INFLIGHT") as [->|H3];
      [split; [discriminate|intros [?|?]; discriminate]|].
    destruct (String.eqb_spec a "DELIVERED") as [->|H4]; [intuition|].
    split; [discriminate|intros [?|?]; contradiction].
  - destruct (String.eqb a "COMPLETED"), (String.eqb a "FAILED"),
      (String.eqb a "INFLIGHT"), (String.eqb a "DELIVERED"),
      (String.eqb b "COMPLETED"), (String.eqb b "FAILED"),
      (String.eqb b "INFLIGHT"), (String.eqb b "DELIVERED");
      simpl; intros Hc; try reflexivity; discriminate Hc.
Qed.

Lemma status_glyph_and_colour_witness :
  getStatusIcon "CREATED" = getStatusIcon "QUEUED".
Proof.
  apply (status_glyph_and_colour "CREATED" "QUEUED"). reflexivity.
Defined.

(** ** Further properties of the poller *)

Section BatchFacts.
Context {W CS : Type}.
Variable hook : WsHook W CS.

(** The continuation for a body whose [messages] is an array is the
    registration loop over its entries inside the [try]. *)
Lemma resume_array (data : JsValue) (l : list JsValue) (s : Sys W) :
  js_get data "messages" = Normal (JArr l) ->
  fetchRealMessages_resume hook (ok_response data) s
  = try_catch
      (for_each (fun msg => do id <- lift (js_get msg "id");
                            call_trackMessage hook id) l)
      (fun error => sys_console_error "Error fetching real messages:" error) s.
Proof.
  intros Hm. unfold fetchRealMessages_resume, fetch_try_body, ok_response,
    try_catch, bind, lift. cbn [ok json]. rewrite Hm. cbn [truthy js_get].
  rewrite String.eqb_refl. cbn [js_gt_zero js_forEach].
  destruct l as [|x l]; reflexivity.
Qed.

Lemma for_each_entry_step (msg v : JsValue) (l : list JsValue) (s : Sys W)
    (w' : W) :
  js_get msg "id" = Normal v ->
  trackMessage hook v (client s) = (Normal tt, w') ->
  for_each (fun msg => do id <- lift (js_get msg "id");
                       call_trackMessage hook id) (msg :: l) s
  = for_each (fun msg => do id <- lift (js_get msg "id");
                         call_trackMessage hook id) l
      {| clock := clock s; console_log := console_log s;
         requests := requests s; pending := pending s;
         trackCalls := trackCalls s ++ [v]; client := w';
         timers := timers s; next_timer := next_timer s;
         effect := effect s |}.
Proof.
  intros Hid Htm. cbn [for_each]. unfold bind, lift, call_trackMessage.
  rewrite Hid, Htm. reflexivity.
Qed.

(** The loop over entries that all have a readable [id], with a
    [trackMessage] that returns. *)
Lemma for_each_entries (l : list JsValue) (vs : list JsValue) (s : Sys W) :
  Forall2 (fun msg v => js_get msg "id" = Normal v) l vs ->
  (forall v w, (trackMessage hook v w).1 = Normal tt) ->
  exists s',
    for_each (fun msg => do id <- lift (js_get msg "id");
                         call_trackMessage hook id) l s = (Normal tt, s')
    /\ trackCalls s' = trackCalls s ++ vs
    /\ console_log s' = console_log s.
Proof.
  intros Hall Hret. revert s.
  induction Hall as [|msg v l vs Hid _ IH]; intros s.
  - exists s. simpl. rewrite app_nil_r. auto.
  - pose proof (Hret v (client s)) as Hr.
    destruct (trackMessage hook v (client s)) as [r w'] eqn:Htm.
    simpl in Hr. subst r.
    set (s1 := {| clock := clock s; console_log := console_log s;
                  requests := requests s; pending := pending s;
                  trackCalls := trackCalls s ++ [v]; client := w';
                  timers := timers s; next_timer := next_timer s;
                  effect := effect s |}).
    destruct (IH s1) as (s' & Hrun & Hc & Hl).
    exists s'. rewrite (for_each_entry_step msg v _ s w' Hid Htm).
    fold s1. rewrite Hrun, Hc, Hl. simpl. rewrite <- app_assoc. auto.
Qed.

(** The loop stops at the first entry whose [id] cannot be read. *)
Lemma for_each_bad_entry (l1 l2 : list JsValue) (vs : list JsValue)
    (bad : JsValue) (e : JsError) (s : Sys W) :
  Forall2 (fun msg v => js_get msg "id" = Normal v) l1 vs ->
  js_get bad "id" = Throw e ->
  (forall v w, (trackMessage hook v w).1 = Normal tt) ->
  exists s',
    for_each (fun msg => do id <- lift (js_get msg "id");
                         call_trackMessage hook id) (l1 ++ bad :: l2) s
    = (Throw e, s')
    /\ trackCalls s' = trackCalls s ++ vs
    /\ console_log s' = console_log s.
Proof.
  intros Hall Hbad Hret. revert s.
  induction Hall as [|msg v l vs Hid _ IH]; intros s.
  - exists s. cbn [app for_each]. unfold bind, lift. rewrite Hbad.
    rewrite app_nil_r. auto.
  - pose proof (Hret v (client s)) as Hr.
    destruct (trackMessage hook v (client s)) as [r w'] eqn:Htm.
    simpl in Hr. subst r.
    set (s1 := {| clock := clock s; console_log := console_log s;
                  requests := requests s; pending := pending s;
                  trackCalls := trackCalls s ++ [v]; client := w';
                  timers := timers s; next_timer := next_timer s;
                  effect := effect s |}).
    destruct (IH s1) as (s' & Hrun & Hc & Hl).
    exists s'. rewrite <- app_comm_cons.
    rewrite (for_each_entry_step msg v _ s w' Hid Htm).
    fold s1. rewrite Hrun, Hc, Hl. simpl. rewrite <- app_assoc. auto.
Qed.

(** X12. For a 200 response whose [messages] array holds entries with a
    readable [id] property, [trackMessage] is called once per entry, in
    the array's order, with whatever the entry's [id] is -- [undefined]
    for an entry without one; ids are not validated -- and nothing is
    logged, provided [trackMessage] returns. *)
Theorem poll_registers_each_entry (data : JsValue) (l vs : list JsValue)
    (s : Sys W) :
  js_get data "messages" = Normal (JArr l) ->
  Forall2 (fun msg v => js_get msg "id" = Normal v) l vs ->
  (forall v w, (trackMessage hook v w).1 = Normal tt) ->
  exists s',
    fetchRealMessages_resume hook (ok_response data) s = (Normal tt, s')
    /\ trackCalls s' = trackCalls s ++ vs
    /\ console_log s' = console_log s.
Proof.
  intros Hm Hall Hret.
  destruct (for_each_entries l vs s Hall Hret) as (s' & Hrun & Hc & Hl).
  exists s'. rewrite (resume_array data l s Hm).
  rewrite (try_catch_normal _ _ _ _ _ Hrun). auto.
Qed.

(** X13. One entry whose [id] cannot be read (a [null] in the array)
    ends the batch: the entries before it are registered, the exception is
    logged, the continuation still returns normally, and the entries after
    it are not registered. *)
Theorem poll_stops_at_bad_entry (data : JsValue) (l1 l2 vs : list JsValue)
    (bad : JsValue) (e : JsError) (s : Sys W) :
  js_get data "messages" = Normal (JArr (l1 ++ bad :: l2)) ->
  Forall2 (fun msg v => js_get msg "id" = Normal v) l1 vs ->
  js_get bad "id" = Throw e ->
  (forall v w, (trackMessage hook v w).1 = Normal tt) ->
  exists s',
    fetchRealMessages_resume hook (ok_response data) s = (Normal tt, s')
    /\ trackCalls s' = trackCalls s ++ vs
    /\ console_log s'
       = console_log s ++ [("Error fetching real messages:", e)].
Proof.
  intros Hm Hall Hbad Hret.
  destruct (for_each_bad_entry l1 l2 vs bad e s Hall Hbad Hret)
    as (s' & Hrun & Hc & Hl).
  rewrite (resume_array data _ s Hm), (try_catch_throw _ _ _ _ _ Hrun).
  eexists. split; [reflexivity|]. simpl. rewrite Hc, Hl. auto.
Qed.

End BatchFacts.

Lemma demo_track_returns (v : JsValue) (w : Demo.ConnState * list TrackedMessage) :
  (trackMessage Demo.hook v w).1 = Normal tt.
Proof.
  destruct w as [c l]. destruct v; try reflexivity.
  simpl. destruct (Demo.is_tracked s l); reflexivity.
Qed.

Lemma poll_registers_each_entry_witness :
  exists s',
    fetchRealMessages_resume Demo.hook
      (ok_response (JObj [("messages",
                           JArr [JObj [("id", JStr "a")]; JObj [("name", JStr "x")]])]))
      (initial 0 (Demo.CsOpen, []))
    = (Normal tt, s')
    /\ trackCalls s' = [] ++ [JStr "a"; JUndefined]
    /\ console_log s' = [].
Proof.
  apply (poll_registers_each_entry Demo.hook
           (JObj [("messages",
                   JArr [JObj [("id", JStr "a")]; JObj [("name", JStr "x")]])])
           [JObj [("id", JStr "a")]; JObj [("name", JStr "x")]]
           [JStr "a"; JUndefined]).
  - reflexivity.
  - repeat constructor.
  - exact demo_track_returns.
Defined.

Lemma poll_stops_at_bad_entry_witness :
  exists s',
    fetchRealMessages_resume Demo.hook
      (ok_response (JObj [("messages",
                           JArr [JObj [("id", JStr "a")]; JNull;
                                 JObj [("id", JStr "b")]])]))
      (initial 0 (Demo.CsOpen, []))
    = (Normal tt, s')
    /\ trackCalls s' = [] ++ [JStr "a"]
    /\ console_log s' = [] ++ [("Error fetching real messages:", TypeError)].
Proof.
  apply (poll_stops_at_bad_entry Demo.hook
           (JObj [("messages",
                   JArr [JObj [("id", JStr "a")]; JNull; JObj [("id", JStr "b")]])])
           [JObj [("id", JStr "a")]] [JObj [("id", JStr "b")]]
           [JStr "a"] JNull TypeError).
  - reflexivity.
  - repeat constructor.
  - reflexivity.
  - exact demo_track_returns.
Defined.

(** ** Further properties of the schedule *)

Lemma unmount_spec {W CS : Type} (hook : WsHook W CS) (s : Sys W) :
  well_formed hook s ->
  effect (step hook Unmount s) = None
  /\ timers (step hook Unmount s) = []
  /\ requests (step hook Unmount s) = requests s
  /\ pending (step hook Unmount s) = pending s
  /\ trackCalls (step hook Unmount s) = trackCalls s.
Proof.
  intros [[He Hts] | (id & t & He & Hts & _)]; cbn [step]; rewrite He.
  - auto.
  - split; [reflexivity|].
    split; [apply (clearInterval_single s id t Hts)|auto].
Qed.

(** X14. Unmounting does not abort a request in flight: when its response
    arrives after the unmount, the continuation still registers every id
    of the body with [trackMessage]; but no timer is started and no fetch
    is issued by it. *)
Theorem late_response_after_unmount {W CS : Type} (hook : WsHook W CS)
    (s : Sys W) (n : nat) (ids : list string) :
  well_formed hook s ->
  n ∈ pending s ->
  (forall i w, (trackMessage hook (JStr i) w).1 = Normal tt) ->
  let s1 := step hook Unmount s in
  let s2 := step hook (Settle n (ok_response (body_of ids))) s1 in
  trackCalls s2 = trackCalls s ++ map JStr ids
  /\ timers s2 = []
  /\ requests s2 = requests s
  /\ effect s2 = None.
Proof.
  intros Hwf Hin Hret s1 s2.
  destruct (unmount_spec hook s Hwf) as (He & Hts & Hr & Hp & Hc).
  fold s1 in He, Hts, Hr, Hp, Hc.
  split.
  - unfold s2. rewrite settle_success; [congruence| |exact Hret].
    rewrite Hp. exact Hin.
  - destruct (run_idle hook [Settle n (ok_response (body_of ids))] s1 He Hts)
      as (A & B & C).
    + intros Hm. apply list_elem_of_singleton in Hm. discriminate Hm.
    + unfold run in A, B, C. cbn [foldl] in A, B, C.
      split; [exact A|]. split; [rewrite <- Hr; exact B|exact C].
Qed.

Lemma late_response_after_unmount_witness :
  let s := step Demo.hook Mount (initial 0 (Demo.CsOpen, [])) in
  let s1 := step Demo.hook Unmount s in
  let s2 := step Demo.hook (Settle 0 (ok_response (body_of ["a"]))) s1 in
  trackCalls s2 = [] ++ map JStr ["a"]
  /\ timers s2 = [] /\ requests s2 = [0%N] /\ effect s2 = None.
Proof.
  intros s s1 s2.
  apply (late_response_after_unmount Demo.hook s 0 ["a"]).
  - right. exists 0%nat, 15000%N. unfold armed. simpl.
    repeat split; unfold period; lia.
  - simpl. apply list_elem_of_singleton. reflexivity.
  - exact demo_register_returns.
Defined.

Lemma step_with_connection {W CS : Type} (f : W -> CS) (hook : WsHook W CS)
    (ev : Event) (s : Sys W) :
  step (with_connection f hook) ev s = step hook ev s.
Proof. destruct ev; reflexivity. Qed.

Lemma run_with_connection {W CS : Type} (f : W -> CS) (hook : WsHook W CS)
    (evs : list Event) (s : Sys W) :
  run (with_connection f hook) evs s = run hook evs s.
Proof.
  revert s. induction evs as [|ev evs IH]; intros s; [reflexivity|].
  simpl. rewrite step_with_connection. apply IH.
Qed.

(** X15. Polling is not a fallback for a closed connection: with the
    connection open and the view showing "Live Updates", the timer still
    issues its fetch when due; and the whole run of the component --
    fetch times, timers, registrations -- is the same whatever the
    connection state is. *)
Theorem polling_continues_while_live {W CS : Type} `{EqDecision CS}
    (env : LabelEnv) (hook : WsHook W CS) (s : Sys W) (id : nat) (t : N)
    (expanded : gmap string bool) (log : list LogEntry) :
  mounted s id t ->
  connectionState hook (client s) = OPEN hook ->
  (0 < length (messages hook (client s)))%nat ->
  shows (render env hook (client s) expanded log)
        (fun v => shows_badge v LiveUpdates)
  /\ requests (step hook (Elapse (t - clock s)) s) = requests s ++ [t]
  /\ forall (f : W -> CS) (evs : list Event) (s0 : Sys W),
       run (with_connection f hook) evs s0 = run hook evs s0.
Proof.
  intros (_ & Hts & Hclk) Hopen Hlen. split; [|split].
  - destruct (render_nonempty env hook (client s) expanded log Hlen)
      as (rows & log' & Hr & _).
    unfold shows. rewrite Hr. simpl. unfold connection_badge.
    destruct (decide (connectionState hook (client s) = OPEN hook));
      [reflexivity|contradiction].
  - apply (tick_once hook s id t Hts (proj1 Hclk)).
  - intros f evs s0. apply run_with_connection.
Qed.

Lemma polling_continues_while_live_witness :
  let s := step Demo.hook Mount
             (initial 0 (Demo.CsOpen, [Demo.mk_message "a" "INFLIGHT" JUndefined])) in
  shows (render (Demo.browser []) Demo.hook (client s) ∅ [])
        (fun v => shows_badge v LiveUpdates)
  /\ requests (step Demo.hook (Elapse 15000) s) = [] ++ [15000%N].
Proof.
  intros s.
  destruct (polling_continues_while_live (Demo.browser []) Demo.hook s
              0%nat 15000%N ∅ []) as (A & B & _).
  - unfold mounted. simpl. split; [eauto|]. split; [reflexivity|].
    unfold period. lia.
  - reflexivity.
  - simpl. lia.
  - split; [exact A|exact B].
Defined.

(** X16. In every state the component can reach, a further render with
    unchanged dependencies (a parent re-render, or the re-render after a
    row was expanded or collapsed) changes nothing: the timer keeps its
    due time and no fetch is issued. *)
Theorem render_keeps_schedule {W CS : Type} (hook : WsHook W CS)
    (t0 : N) (w : W) (evs : list Event) :
  step hook Render (run hook evs (initial t0 w)) = run hook evs (initial t0 w).
Proof.
  assert (Hwf : well_formed hook (run hook evs (initial t0 w))).
  { apply run_well_formed. left. split; reflexivity. }
  cbn [step]. destruct Hwf as [[He _] | (id & t & He & _)].
  - apply rerender_idle. exact He.
  - apply (rerender_armed_eq hook _ id). exact He.
Qed.

Lemma fire_times_length (t : N) (n : nat) : length (fire_times t n) = n.
Proof.
  revert t. induction n as [|n IH]; intros t; simpl; [reflexivity|].
  rewrite IH. reflexivity.
Qed.

(** X17. While nothing changes the dependencies, the number of fetches
    issued within [dt] milliseconds of the mount is the number of whole
    15-second periods in [dt], plus the immediate one when no message was
    tracked at mount. *)
Theorem fetch_count_after_mount {W CS : Type} (hook : WsHook W CS)
    (t0 : N) (w : W) (dt : N) :
  length (requests (run hook [Mount; Elapse dt] (initial t0 w)))
  = ((if (length (messages hook w) =? 0)%nat then 1 else 0)
     + N.to_nat (dt / period))%nat.
Proof.
  unfold run. cbn [foldl]. cbn [step initial effect].
  destruct (run_effect_spec hook (initial t0 w) eq_refl)
    as ((_ & Hts & _) & Hreq & Hclk & _).
  cbn [initial clock requests client next_timer] in Hts, Hreq, Hclk.
  destruct (elapse_single _ 0%nat (t0 + period)%N dt Hts ltac:(rewrite Hclk; lia))
    as (n & _ & _ & _ & Hk & Hr & _).
  rewrite Hclk in Hk.
  change (step hook (Elapse dt) (run_effect hook (initial t0 w)))
    with (elapse dt (run_effect hook (initial t0 w))).
  rewrite Hr, Hreq, !length_app, fire_times_length. simpl app.
  assert (Hn : n = N.to_nat (dt / period)).
  { pose proof (N.mul_succ_div_gt dt period ltac:(unfold period; lia)) as Hgt.
    pose proof (N.Div0.mul_div_le dt period) as Hle.
    set (q := (dt / period)%N) in *.
    destruct (Nat.lt_trichotomy n (N.to_nat q)) as [Hlt|[Heq|Hgt']];
      [|exact Heq|].
    - exfalso. assert (Hnn : ~ (n < n)%nat) by lia.
      rewrite Hk in Hnn. apply Hnn.
      assert (N.of_nat n + 1 <= q)%N by lia. unfold period in *. nia.
    - exfalso. pose proof (proj1 (Hk (N.to_nat q)) Hgt') as Hq.
      rewrite N2Nat.id in Hq. unfold period in *. nia. }
  rewrite Hn. destruct (length (messages hook w) =? 0)%nat; reflexivity.
Qed.

(** ** A poller that never gets to fire *)

Lemma tracking_length (k : nat) : length (messages Demo.hook (tracking k)) = k.
Proof. unfold tracking. simpl. rewrite length_map, length_seq. reflexivity. Qed.

Lemma arrivals_succ (n : nat) :
  arrivals (S n) = arrivals n ++ [Elapse 10000; Push (tracking (S n))].
Proof.
  unfold arrivals. rewrite seq_S, flat_map_app. reflexivity.
Qed.

Lemma run_app {W CS : Type} (hook : WsHook W CS) (evs1 evs2 : list Event)
    (s : Sys W) :
  run hook (evs1 ++ evs2) s = run hook evs2 (run hook evs1 s).
Proof. unfold run. apply foldl_app. Qed.

(** One round: the ten seconds are less than what is left of the period,
    and the arrival restarts the period. *)
Lemma arrival_round (n : nat) (s : Sys (Demo.ConnState * list TrackedMessage))
    (id : nat) :
  clock s = (10000 * N.of_nat n)%N ->
  requests s = [0%N] ->
  timers s = [(id, (10000 * N.of_nat n + period)%N)] ->
  effect s = Some (id, (n, 0%nat)) ->
  let s' := run Demo.hook [Elapse 10000; Push (tracking (S n))] s in
  clock s' = (10000 * N.of_nat (S n))%N
  /\ requests s' = [0%N]
  /\ (exists id', timers s' = [(id', (10000 * N.of_nat (S n) + period)%N)]
                  /\ effect s' = Some (id', (S n, 0%nat))).
Proof.
  intros Hclk Hreq Hts Hef s'.
  destruct (elapse_single s id (10000 * N.of_nat n + period)%N 10000 Hts
              ltac:(rewrite Hclk; lia))
    as (k & Ht1 & Hc1 & _ & Hk & Hr1 & _ & _ & _ & Hw1 & Hnt1 & He1).
  assert (k = 0%nat) as ->.
  { destruct k as [|k]; [reflexivity|]. exfalso.
    pose proof (proj1 (Hk 0%nat) ltac:(lia)) as Hle.
    rewrite Hclk in Hle. unfold period in Hle. lia. }
  simpl in Ht1, Hr1. rewrite N.add_0_r in Ht1. rewrite app_nil_r in Hr1.
  set (s1 := elapse 10000 s) in *.
  assert (Hclk1 : (clock (with_client (tracking (S n)) s1)
                   < 10000 * N.of_nat n + period
                   <= clock (with_client (tracking (S n)) s1) + period)%N).
  { cbn [clock with_client]. rewrite Hc1, Hclk. unfold period. lia. }
  destruct (rerender_mounted Demo.hook (with_client (tracking (S n)) s1) id
              (10000 * N.of_nat n + period)%N (n, 0%nat)
              ltac:(cbn [effect with_client]; congruence) Ht1 Hclk1)
    as (_ & Hchg & Hc2 & Hw2 & _).
  destruct Hchg as ((He2 & Ht2 & _) & Hr2).
  { unfold deps_of. cbn [client with_client]. rewrite tracking_length.
    intros [= Hn]. lia. }
  change s' with (rerender Demo.hook (with_client (tracking (S n)) s1)).
  split; [|split].
  - rewrite Hc2. cbn [clock with_client]. rewrite Hc1, Hclk. lia.
  - rewrite Hr2. cbn [client with_client requests]. rewrite tracking_length.
    simpl. rewrite app_nil_r, Hr1. exact Hreq.
  - eexists. split.
    + rewrite Ht2. cbn [clock with_client]. rewrite Hc1, Hclk.
      f_equal. f_equal. lia.
    + rewrite He2. unfold deps_of. rewrite Hw2. cbn [client with_client].
      rewrite tracking_length. reflexivity.
Qed.

(** C3. The claim fails on the code: the poller does not fire every 15
    seconds regardless of the tracked-message count. Mounted with no
    message it fetches once, at mount; if from then on one more message
    is tracked every ten seconds, every change of the count re-runs the
    effect, which clears the timer and starts a new one, so that after
    any number [n] of such rounds the view is still mounted, [10 n]
    seconds have passed, and the fetch at mount is the only one ever
    issued. *)
Theorem poller_starved_by_count_changes (n : nat) :
  let s := run Demo.hook (arrivals n)
             (step Demo.hook Mount (initial 0 (tracking 0))) in
  clock s = (10000 * N.of_nat n)%N
  /\ requests s = [0%N]
  /\ exists id, timers s = [(id, (10000 * N.of_nat n + period)%N)]
                /\ effect s = Some (id, (n, 0%nat)).
Proof.
  induction n as [|n (Hclk & Hreq & id & Hts & Hef)].
  - simpl. split; [reflexivity|]. split; [reflexivity|].
    exists 0%nat. split; reflexivity.
  - cbv zeta. rewrite arrivals_succ, run_app.
    apply (arrival_round n _ id Hclk Hreq Hts Hef).
Qed.
